(** * NAFI: a unified configuration-file reader (nafi.go)

    A shallow embedding of [newConfigParserFromBytes], [getNestedValue] and
    [ConfigParserObj.Get], together with the fragments of the Go standard
    library ([strings], [fmt]) and of [gopkg.in/ini.v1] that they call.

    Go strings are byte sequences: they are modelled by [string], whose
    characters are the 256 values of [ascii].  A [[]byte] converted with
    [string(content)] is the same sequence. *)

From Stdlib Require Import Strings.Ascii Strings.String.
From stdpp Require Import gmap strings list fin_maps sorting.

Local Set Warnings "-register-all".
Local Open Scope string_scope.

(** ** The [strings] package

    Every separator nafi.go passes ("\n", "=", ".") is one byte long, so the
    separator argument is an [ascii]. *)
Module GoStrings.

(** [strings.Join(elems, sep)]. *)
Fixpoint Join (elems : list string) (sep : ascii) : string :=
  match elems with
  | [] => ""
  | [e] => e
  | e :: rest => e +:+ String sep (Join rest sep)
  end.

(** [strings.Contains(s, sep)]. *)
Fixpoint Contains (s : string) (sep : ascii) : bool :=
  match s with
  | "" => false
  | String c s' => if decide (c = sep) then true else Contains s' sep
  end.

(** [strings.Count(s, sep)]. *)
Fixpoint Count (s : string) (sep : ascii) : nat :=
  match s with
  | "" => 0
  | String c s' => if decide (c = sep) then S (Count s' sep) else Count s' sep
  end.

(** [strings.HasPrefix(s, prefix)]. *)
Definition HasPrefix (s prefix : string) : bool := String.prefix prefix s.

(** For [m := strings.Index(s, sep)], the pair [(s[:m], s[m+len(sep):])];
    [None] when [m < 0]. *)
Fixpoint cutAtIndex (s : string) (sep : ascii) : option (string * string) :=
  match s with
  | "" => None
  | String c s' =>
      if decide (c = sep) then Some ("", s')
      else match cutAtIndex s' sep with
           | Some (before, after) => Some (String c before, after)
           | None => None
           end
  end.

(** The loop of [genSplit]: [for i < n { m := Index(s, sep); if m < 0
    { break }; a[i] = s[:m]; s = s[m+len(sep):]; i++ }; a[i] = s]. *)
Fixpoint genSplit_loop (s : string) (sep : ascii) (n : nat) : list string :=
  match n with
  | O => [s]
  | S n' =>
      match cutAtIndex s sep with
      | None => [s]
      | Some (before, after) => before :: genSplit_loop after sep n'
      end
  end.

(** [genSplit(s, sep, 0, n)] for a non-empty separator. *)
Definition genSplit (s : string) (sep : ascii) (n : Z) : list string :=
  if decide (n = 0)%Z then []
  else
    let n := if decide (n < 0)%Z then (Z.of_nat (Count s sep) + 1)%Z else n in
    let n := if decide (n > Z.of_nat (String.length s) + 1)%Z
             then (Z.of_nat (String.length s) + 1)%Z else n in
    genSplit_loop s sep (Z.to_nat (n - 1)).

(** [strings.SplitN(s, sep, n)] and [strings.Split(s, sep)]. *)
Definition SplitN (s : string) (sep : ascii) (n : Z) : list string :=
  genSplit s sep n.
Definition Split (s : string) (sep : ascii) : list string :=
  genSplit s sep (-1).

(** *** White space

    [strings.TrimSpace] removes leading and trailing runes for which
    [unicode.IsSpace] holds.  On bytes: the six ASCII spaces, and the UTF-8
    encodings of U+0085, U+00A0 (two bytes) and of U+1680, U+2000..U+200A,
    U+2028, U+2029, U+202F, U+205F, U+3000 (three bytes).  A byte that does
    not start such an encoding decodes to a rune that is not a space. *)
Definition byte (n : nat) : ascii := ascii_of_nat n.

(** '\t', '\n', '\v', '\f', '\r', ' '. *)
Definition asciiSpace (c : ascii) : bool :=
  bool_decide (c ∈ [byte 9; byte 10; byte 11; byte 12; byte 13; byte 32]).

(** U+0085 is C2 85, U+00A0 is C2 A0. *)
Definition space2 (c1 c2 : ascii) : bool :=
  bool_decide (c1 = byte 194) && bool_decide (c2 ∈ [byte 133; byte 160]).

(** U+1680 is E1 9A 80; U+2000..U+200A are E2 80 80..8A; U+2028, U+2029 and
    U+202F are E2 80 A8, A9, AF; U+205F is E2 81 9F; U+3000 is E3 80 80. *)
Definition space3 (c1 c2 c3 : ascii) : bool :=
  let n1 := nat_of_ascii c1 in
  let n2 := nat_of_ascii c2 in
  let n3 := nat_of_ascii c3 in
  bool_decide (n1 = 225 ∧ n2 = 154 ∧ n3 = 128)
  || bool_decide (n1 = 226 ∧ n2 = 128 ∧
                  ((128 ≤ n3 ∧ n3 ≤ 138)%nat ∨ n3 = 168 ∨ n3 = 169 ∨ n3 = 175))
  || bool_decide (n1 = 226 ∧ n2 = 129 ∧ n3 = 159)
  || bool_decide (n1 = 227 ∧ n2 = 128 ∧ n3 = 128).

(** Drops runes from the front while they are spaces; [p2] and [p3]
    recognise the two- and three-byte encodings in reading order. *)
Fixpoint dropSpaces (p2 : ascii → ascii → bool)
    (p3 : ascii → ascii → ascii → bool) (s : string) : string :=
  match s with
  | String c1 s1 =>
      if asciiSpace c1 then dropSpaces p2 p3 s1
      else match s1 with
           | String c2 s2 =>
               if p2 c1 c2 then dropSpaces p2 p3 s2
               else match s2 with
                    | String c3 s3 =>
                        if p3 c1 c2 c3 then dropSpaces p2 p3 s3 else s
                    | "" => s
                    end
           | "" => s
           end
  | "" => s
  end.

(** [strings.TrimLeftFunc(s, unicode.IsSpace)]. *)
Definition trimLeftSpace (s : string) : string := dropSpaces space2 space3 s.

(** [strings.TrimRightFunc(s, unicode.IsSpace)]: the same scan from the
    end, where the bytes of an encoding are met last byte first. *)
Definition trimRightSpace (s : string) : string :=
  String.rev (dropSpaces (λ c2 c1, space2 c1 c2)
                         (λ c3 c2 c1, space3 c1 c2 c3) (String.rev s)).

(** [strings.TrimSpace(s)]. *)
Definition TrimSpace (s : string) : string := trimRightSpace (trimLeftSpace s).

End GoStrings.

Import GoStrings.

(** ** Decoded values

    What [json.Unmarshal] and [yaml.Unmarshal] store in an [interface{}].
    A number is kept as the text that [%v] prints for it (the formatting of
    a float64 is the business of [strconv]); [VOther] stands for any further
    dynamic type (yaml's [map[interface{}]interface{}], [time.Time]), again
    with its [%v] text. *)
Inductive value :=
  | VNil
  | VBool (b : bool)
  | VNumber (text : string)
  | VString (s : string)
  | VSlice (elems : list value)
  | VMap (m : gmap string value)
  | VOther (text : string).

(** ** The [fmt] package: the verb [%v] *)
Module fmt.

(** The order in which [fmt] prints the keys of a map: byte-wise [<=]. *)
Definition entry_le (a b : string * string) : Prop := String.leb a.1 b.1.

(** The entries of a printed map. *)
Definition printMap (m : gmap string string) : string :=
  "map[" +:+
  Join (map (λ kv : string * string, kv.1 +:+ ":" +:+ kv.2)
            (merge_sort entry_le (map_to_list m))) " "
  +:+ "]".

(** [fmt.Sprintf("%v", v)]. *)
Fixpoint Sprintf_v (v : value) : string :=
  match v with
  | VNil => "<nil>"
  | VBool b => if b then "true" else "false"
  | VNumber text => text
  | VString s => s
  | VSlice elems => "[" +:+ Join (map Sprintf_v elems) " " +:+ "]"
  | VMap m => printMap (Sprintf_v <$> m)
  | VOther text => text
  end.

End fmt.

(** ** Errors

    The [error] values nafi.go makes or passes on, by the call that makes
    them; the operands of the format string are kept, not the message. *)
Inductive error :=
  | (** [errors.New("unsupported file type " + fileType)] *)
    UnsupportedFileType (fileType : string)
  | (** [fmt.Errorf("key %q not found", key)] *)
    KeyNotFound (key : string)
  | (** [fmt.Errorf("key %q not found in section %q", k, section)] *)
    KeyNotFoundInSection (k section : string)
  | (** an error returned by [ini.Load], [json.Unmarshal] or
        [yaml.Unmarshal] *)
    DecodeError (msg : string).

(** ** The [gopkg.in/ini.v1] package

    The library is a dependency of the repository, not part of it.  The model
    covers what [Get] calls, [File.Section], [Section.Key] and [Key.String],
    as the library documents them: a section or key that does not exist is
    created on the spot ("it automatically creates and returns a new section
    to you"; "same rule applies to key operations"), the new key holding the
    zero value.  A [*File] is the table of its sections, a [*Section] the
    name under which it is registered, a [*Key] its name in its section.
    Values are literal: the [%(name)s] substitution of [Key.String] and the
    child-section fallback of [Section.GetKey] (for section names containing
    ".", which [Get] never asks for) are left out. *)
Module ini.

Abbreviation File := (gmap string (gmap string string)).

(** [ini.DefaultSection], the name of the section of keys given before any
    section header; the empty name is an alias of it. *)
Definition DefaultSection : string := "DEFAULT".

Definition sectionName (name : string) : string :=
  if decide (name = "") then DefaultSection else name.

(** [f.GetSection(name)]. *)
Definition GetSection (f : File) (name : string) : option (gmap string string) :=
  f !! sectionName name.

(** [f.NewSection(name)]: an empty name is an error, an existing section is
    handed back, otherwise an empty section is registered. *)
Definition NewSection (f : File) (name : string) : File * option string :=
  if decide (name = "") then (f, None)
  else match f !! name with
       | Some _ => (f, Some name)
       | None => (<[name := ∅]> f, Some name)
       end.

(** [f.Section(name)]: [GetSection], and on failure [NewSection] of the
    name ([DefaultSection] for the empty one). *)
Definition Section (f : File) (name : string) : File * option string :=
  match GetSection f name with
  | Some _ => (f, Some (sectionName name))
  | None => NewSection f (sectionName name)
  end.

(** [s.GetKey(name)] for the section registered as [sec]. *)
Definition GetKey (f : File) (sec name : string) : option string :=
  f !! sec ≫= (.!! name).

(** [s.NewKey(name, val)]: an empty name is an error ("error creating new
    key: empty key name") and the key handed back is nil; otherwise the
    key is set to [val]. *)
Definition NewKey (f : File) (sec name val : string) : File * option string :=
  if decide (name = "") then (f, None)
  else (<[sec := <[name := val]> (default ∅ (f !! sec))]> f, Some name).

(** [s.Key(name)]: [GetKey], and on failure [NewKey(name, "")] whose error
    is dropped. *)
Definition Key (f : File) (sec name : string) : File * option string :=
  match GetKey f sec name with
  | Some _ => (f, Some name)
  | None => NewKey f sec name ""
  end.

(** [k.String()]: the value of the key; [None] when [k] is nil, where the
    method dereferences a nil pointer. *)
Definition String (f : File) (sec : string) (k : option string) : option string :=
  match k with
  | Some name => Some (default "" (GetKey f sec name))
  | None => None
  end.

(** [f.Section(section).Key(name).String()]. *)
Definition Section_Key_String (f : File) (section name : string)
    : File * option string :=
  match Section f section with
  | (f1, Some sec) =>
      let '(f2, k) := Key f1 sec name in (f2, String f2 sec k)
  | (f1, None) => (f1, None)
  end.

End ini.

(** ** nafi.go *)

(** The decoders of the libraries, which turn the bytes of a file into a
    section table or a mapping, or fail with a message. *)
Record Decoders := {
  ini_Load : string → ini.File + string;
  json_Unmarshal : string → gmap string value + string;
  yaml_Unmarshal : string → gmap string value + string;
}.

(** [type ConfigParserObj struct].  [iniFile] is a pointer: [None] is nil. *)
Record ConfigParserObj := {
  data : gmap string value;
  raw : gmap string string;
  fileType : string;
  iniFile : option ini.File;
}.

(** The body of the loop over the lines of a "conf" file, on [parser.raw]. *)
Definition conf_line (raw : gmap string string) (line : string)
    : gmap string string :=
  let line := TrimSpace line in
  if bool_decide (line = "") || HasPrefix line "#" then raw
  else
    match SplitN line "=" 2 with
    | [part0; part1] => <[TrimSpace part0 := TrimSpace part1]> raw
    | _ => raw
    end.

(** [newConfigParserFromBytes(fileType, content)]: the pointer to the new
    object ([None] for nil) and the error ([None] for nil). *)
Definition newConfigParserFromBytes (lib : Decoders) (fileType content : string)
    : option ConfigParserObj * option error :=
  let parser := {| data := ∅; raw := ∅; fileType := fileType; iniFile := None |} in
  if decide (fileType = "conf") then
    let lines := Split content (byte 10) in
    (Some {| data := data parser; raw := foldl conf_line (raw parser) lines;
             fileType := fileType; iniFile := None |}, None)
  else if decide (fileType = "ini") then
    match ini_Load lib content with
    | inr err => (None, Some (DecodeError err))
    | inl iniFile =>
        (Some {| data := data parser; raw := raw parser;
                 fileType := fileType; iniFile := Some iniFile |}, None)
    end
  else if decide (fileType = "json") then
    match json_Unmarshal lib content with
    | inr err => (None, Some (DecodeError err))
    | inl jsonData =>
        (Some {| data := jsonData; raw := raw parser;
                 fileType := fileType; iniFile := None |}, None)
    end
  else if decide (fileType = "yaml") then
    match yaml_Unmarshal lib content with
    | inr err => (None, Some (DecodeError err))
    | inl yamlData =>
        (Some {| data := yamlData; raw := raw parser;
                 fileType := fileType; iniFile := None |}, None)
    end
  else (None, Some (UnsupportedFileType fileType)).

(** The loop of [getNestedValue] over the parts of the key, from [current]. *)
Fixpoint getNestedValue_loop (current : value) (parts : list string)
    : value * bool :=
  match parts with
  | [] => (current, true)
  | part :: parts' =>
      match current with
      | VMap curr =>
          match curr !! part with
          | None => (VNil, false)
          | Some next => getNestedValue_loop next parts'
          end
      | _ => (VNil, false)
      end
  end.

(** [getNestedValue(data, key)]. *)
Definition getNestedValue (data : gmap string value) (key : string)
    : value * bool :=
  getNestedValue_loop (VMap data) (Split key ".").

(** What a call of [Get] does: it returns [(val, err)], with [None] for a
    nil error, or it panics. *)
Inductive outcome :=
  | Returns (val : string) (err : option error)
  | Panics.

(** The object after the file [c.iniFile] points to became [f]. *)
Definition with_iniFile (c : ConfigParserObj) (f : ini.File) : ConfigParserObj :=
  {| data := data c; raw := raw c; fileType := fileType c; iniFile := Some f |}.

(** The two look-ups of the "ini" case of [Get], after
    [c.iniFile.Section(section).Key(k).String()] gave [val]. *)
Definition ini_result (val : option string) (notFound : error) : outcome :=
  match val with
  | None => Panics
  | Some val => if decide (val = "") then Returns "" (Some notFound)
                else Returns val None
  end.

(** [func (c *ConfigParserObj) Get(key string) (string, error)]: the
    outcome of the call, and the object after it. *)
Definition Get (c : ConfigParserObj) (key : string) : outcome * ConfigParserObj :=
  if decide (fileType c = "conf") then
    match raw c !! key with
    | None => (Returns "" (Some (KeyNotFound key)), c)
    | Some val => (Returns val None, c)
    end
  else if decide (fileType c = "ini") then
    match iniFile c with
    | None => (Panics, c)
    | Some f =>
        if negb (Contains key ".") then
          let '(f', val) := ini.Section_Key_String f "" key in
          (ini_result val (KeyNotFound key), with_iniFile c f')
        else
          match SplitN key "." 2 with
          | section :: k :: _ =>
              let '(f', val) := ini.Section_Key_String f section k in
              (ini_result val (KeyNotFoundInSection k section), with_iniFile c f')
          | _ => (Panics, c)
          end
    end
  else if bool_decide (fileType c = "json") || bool_decide (fileType c = "yaml") then
    match getNestedValue (data c) key with
    | (_, false) => (Returns "" (Some (KeyNotFound key)), c)
    | (val, true) => (Returns (fmt.Sprintf_v val) None, c)
    end
  else (Returns "" (Some (UnsupportedFileType (fileType c))), c).

(** ** Objects and runs *)


(** The object after the calls [Get(key)] for the keys of [keys], in order. *)
Definition after_Gets (c : ConfigParserObj) (keys : list string) : ConfigParserObj :=
  foldl (λ c key, (Get c key).2) c keys.

(** The object after [n] calls of [Get(key)]. *)
Definition after_repeated (c : ConfigParserObj) (key : string) (n : nat)
    : ConfigParserObj :=
  after_Gets c (replicate n key).

(** ** The addressing rules, in the words of the specification *)

(** A string without the separator. *)
Definition free_of (sep : ascii) (s : string) : Prop := Contains s sep = false.

(** "Split [key] on every dot into an ordered sequence of path segments":
    the segments hold no dot and, joined by dots, give the key back. *)
Definition segments_of (key : string) (segs : list string) : Prop :=
  segs ≠ [] ∧ Forall (free_of ".") segs ∧ Join segs "." = key.

(** "Walk the tree: at each step, the current value must be a mapping, and
    the next segment must exist as a key in it". *)
Inductive resolves : value → list string → value → Prop :=
  | resolves_here v : resolves v [] v
  | resolves_step m seg next segs v :
      m !! seg = Some next → resolves next segs v →
      resolves (VMap m) (seg :: segs) v.

(** The value the section table holds for key [name] of section [section]. *)
Definition stored (f : ini.File) (section name : string) : option string :=
  f !! section ≫= (.!! name).

(** What a look-up of key [name] in the section registered as [sec] yields:
    the stored value, the zero value for a key that is not there, and no key
    at all for the empty name, under which none can be created. *)
Definition looked_up (f : ini.File) (sec name : string) : option string :=
  match stored f sec name with
  | Some val => Some val
  | None => if decide (name = "") then None else Some ""
  end.

(** [f'] is [f] with, possibly, further empty sections and further keys of
    empty value. *)
Definition only_empty_added (f f' : ini.File) : Prop :=
  (∀ s, is_Some (f !! s) → is_Some (f' !! s)) ∧
  (∀ s k v, stored f s k = Some v → stored f' s k = Some v) ∧
  (∀ s k v, stored f' s k = Some v → stored f s k = Some v ∨ (v = "" ∧ k ≠ "")).

(** "One [key = value] pair per line; blank lines and lines starting with
    [#] ignored; value is everything after the first [=], both sides trimmed
    of surrounding whitespace": the line, once trimmed, is [before = after]
    with no [=] in [before]. *)
Definition line_defines (line key val : string) : Prop :=
  ∃ before after,
    TrimSpace line = before +:+ String "=" after ∧ free_of "=" before ∧
    HasPrefix (TrimSpace line) "#" = false ∧
    key = TrimSpace before ∧ val = TrimSpace after.

(** A line that sets no key: blank, a comment, or without [=]. *)
Definition line_ignored (line : string) : Prop :=
  TrimSpace line = "" ∨ HasPrefix (TrimSpace line) "#" = true ∨ free_of "=" line.

(** A run of white-space runes, with [p2] and [p3] for the encodings of two
    and three bytes. *)
Inductive space_run (p2 : ascii → ascii → bool)
    (p3 : ascii → ascii → ascii → bool) : string → Prop :=
  | space_run_nil : space_run p2 p3 ""
  | space_run_ascii c s :
      asciiSpace c = true → space_run p2 p3 s → space_run p2 p3 (String c s)
  | space_run_two c1 c2 s :
      p2 c1 c2 = true → space_run p2 p3 s →
      space_run p2 p3 (String c1 (String c2 s))
  | space_run_three c1 c2 c3 s :
      p3 c1 c2 c3 = true → space_run p2 p3 s →
      space_run p2 p3 (String c1 (String c2 (String c3 s))).

(** "Surrounding whitespace": what [strings.TrimSpace] removes. *)
Definition whitespace (s : string) : Prop := space_run space2 space3 s.

(** "Otherwise fail immediately": somewhere along the segments the current
    value is not a mapping, or the next segment is not a key of it. *)
Inductive stuck : value → list string → Prop :=
  | stuck_not_mapping v seg segs :
      (∀ m, v ≠ VMap m) → stuck v (seg :: segs)
  | stuck_missing m seg segs :
      m !! seg = None → stuck (VMap m) (seg :: segs)
  | stuck_below m seg next segs :
      m !! seg = Some next → stuck next segs → stuck (VMap m) (seg :: segs).

(** Decoders that answer with a given document whatever the bytes. *)
Definition fixed_decoders (f : ini.File) (j y : gmap string value) : Decoders :=
  {| ini_Load := λ _, inl f; json_Unmarshal := λ _, inl j;
     yaml_Unmarshal := λ _, inl y |}.

(** ** Two statements the code does not meet *)

(** Every line that defines a key is what a later [Get] of the key
    returns. *)
Definition every_defining_line_is_returned : Prop :=
  ∀ lib content c pre line post key val,
    newConfigParserFromBytes lib "conf" content = (Some c, None) →
    Split content (byte 10) = (pre ++ line :: post)%list →
    line_defines line key val →
    (Get c key).1 = Returns val None.


(** ** Loading from a path *)

(** [type FileReaderFunc func(path string) ([]byte, error)]: the bytes of
    the file, or the error of the read, kept by its message.  The variable
    [readFile], which the tests replace, is an argument of [ConfigParser]. *)
Definition FileReaderFunc : Type := string → string + string.

(** The [error] [ConfigParser] returns, by where it comes from: [readFile],
    or [newConfigParserFromBytes]. *)
Inductive ConfigParser_error :=
  | ReadFileError (msg : string)
  | FromBytesError (err : error).

(** [ConfigParserObj{}]: nil maps, the empty tag, a nil pointer. *)
Definition zero_ConfigParserObj : ConfigParserObj :=
  {| data := ∅; raw := ∅; fileType := ""; iniFile := None |}.

(** [ConfigParser(filepath, fileType)]: the object and the error it
    returns; [None] where [*parser] would dereference a nil pointer. *)
Definition ConfigParser (lib : Decoders) (readFile : FileReaderFunc)
    (filepath fileType : string)
    : option (ConfigParserObj * option ConfigParser_error) :=
  match readFile filepath with
  | inr err => Some (zero_ConfigParserObj, Some (ReadFileError err))
  | inl content =>
      match newConfigParserFromBytes lib fileType content with
      | (_, Some err) => Some (zero_ConfigParserObj, Some (FromBytesError err))
      | (Some parser, None) => Some (parser, None)
      | (None, None) => None
      end
  end.

(** The format tags of the [switch] statements. *)
Definition supported : list string := ["conf"; "ini"; "json"; "yaml"].

(** The object with [m] for its tree. *)
Definition with_data (c : ConfigParserObj) (m : gmap string value)
    : ConfigParserObj :=
  {| data := m; raw := raw c; fileType := fileType c; iniFile := iniFile c |}.

(** A key and a value as the "conf" decoder stores them: trimmed, on one
    line, the key without [=] and not a comment mark. *)
Definition clean_entry (key val : string) : Prop :=
  TrimSpace key = key ∧ TrimSpace val = val ∧
  free_of "=" key ∧ free_of (byte 10) key ∧ free_of (byte 10) val ∧
  HasPrefix key "#" = false.

(** A flat map written out, one [key=value] line per entry. *)
Definition conf_document (m : gmap string string) : string :=
  Join (map (λ kv : string * string, kv.1 +:+ String "=" kv.2) (map_to_list m))
       (byte 10).

(** * Properties *)

(** ** The documents of the test file *)

Example Split_lines :
  Split ("key1=value1" +:+ String (byte 10) "key2 = value2") (byte 10)
  = ["key1=value1"; "key2 = value2"].
Proof. reflexivity. Qed.

Example Split_empty : Split "" "." = [""].
Proof. reflexivity. Qed.

Example Split_every_dot : Split "a..b." "." = ["a"; ""; "b"; ""].
Proof. reflexivity. Qed.

Example SplitN_first_only : SplitN "a=b=c" "=" 2 = ["a"; "b=c"].
Proof. reflexivity. Qed.

Example TrimSpace_both_sides :
  TrimSpace (String (byte 9) "  rAR#vW@='4EV " +:+ String (byte 13) "")
  = "rAR#vW@='4EV".
Proof. reflexivity. Qed.

(** U+00A0 in front, U+2028 behind. *)
Example TrimSpace_unicode :
  TrimSpace (String (byte 194) (String (byte 160) "x")
             +:+ String (byte 226) (String (byte 128) (String (byte 168) "")))
  = "x".
Proof. reflexivity. Qed.

(** The "conf file" case of [TestConfigParser]. *)
Example conf_file_of_the_tests :
  let nl := String (byte 10) "" in
  let content :=
    nl +:+ "# comment" +:+ nl +:+ "key1=value1" +:+ nl +:+ nl +:+
    "key2 = value2" +:+ nl +:+ "key3= value3" +:+ nl +:+
    "key4 = rAR#vW@='4EV" +:+ nl in
  ∃ c, newConfigParserFromBytes (fixed_decoders ∅ ∅ ∅) "conf" content
       = (Some c, None) ∧
       map (λ key, (Get c key).1) ["key1"; "key2"; "key3"; "key4"; "key5"]
       = [Returns "value1" None; Returns "value2" None; Returns "value3" None;
          Returns "rAR#vW@='4EV" None; Returns "" (Some (KeyNotFound "key5"))].
Proof. eexists. split; reflexivity. Qed.

(** The "json file nested" case, on the tree the decoder yields for it. *)
Example json_file_of_the_tests :
  let tree : gmap string value :=
    {[ "section1" := VMap {[ "foo" := VString "bar" ]};
       "plain" := VString "top"; "intkey" := VNumber "22" ]} in
  ∃ c, newConfigParserFromBytes (fixed_decoders ∅ tree ∅) "json" ""
       = (Some c, None) ∧
       map (λ key, (Get c key).1) ["section1.foo"; "plain"; "intkey"; "missing"]
       = [Returns "bar" None; Returns "top" None; Returns "22" None;
          Returns "" (Some (KeyNotFound "missing"))].
Proof. eexists. split; reflexivity. Qed.

(** The "ini file" case, on the table the decoder yields for it. *)
Example ini_file_of_the_tests :
  let table : ini.File :=
    {[ "DEFAULT" := ∅; "section1" := {[ "foo" := "bar"; "baz" := "bat" ]};
       "section2" := {[ "qux" := "quux" ]} ]} in
  ∃ c, newConfigParserFromBytes (fixed_decoders table ∅ ∅) "ini" ""
       = (Some c, None) ∧
       map (λ key, (Get c key).1)
           ["section1.foo"; "section1.baz"; "section2.qux"; "section1.missing"]
       = [Returns "bar" None; Returns "bat" None; Returns "quux" None;
          Returns "" (Some (KeyNotFoundInSection "missing" "section1"))].
Proof. eexists. split; reflexivity. Qed.

(** A section table after two look-ups of what it does not hold: the
    library has added the key to the default section, and the section with
    its key. *)
Example ini_lookups_add_entries :
  let table : ini.File := {[ "DEFAULT" := ∅ ]} in
  let c := {| data := ∅; raw := ∅; fileType := "ini"; iniFile := Some table |} in
  iniFile (after_Gets c ["port"; "server.host"])
  = Some {[ "DEFAULT" := {[ "port" := "" ]}; "server" := {[ "host" := "" ]} ]}.
Proof. vm_compute. reflexivity. Qed.

(** No key can be created under the empty name: [Key] hands back nil and
    [String] is called on it. *)
Example ini_empty_name_panics :
  let table : ini.File := {[ "DEFAULT" := ∅; "s" := {[ "foo" := "bar" ]} ]} in
  let c := {| data := ∅; raw := ∅; fileType := "ini"; iniFile := Some table |} in
  (Get c "s.").1 = Panics.
Proof. reflexivity. Qed.

(** ** Facts about strings *)

Lemma app_nil_l (s : string) : "" +:+ s = s.
Proof. reflexivity. Qed.

Lemma app_cons (c : ascii) (s t : string) : String c s +:+ t = String c (s +:+ t).
Proof. reflexivity. Qed.

Lemma app_nil_r (s : string) : s +:+ "" = s.
Proof. induction s as [|c s IH]; [done|]. by rewrite app_cons, IH. Qed.

Lemma app_assoc (s t u : string) : (s +:+ t) +:+ u = s +:+ t +:+ u.
Proof. induction s as [|c s IH]; [done|]. by rewrite !app_cons, IH. Qed.

Lemma Contains_app (s t : string) (sep : ascii) :
  Contains (s +:+ t) sep = Contains s sep || Contains t sep.
Proof.
  induction s as [|c s IH]; [done|].
  rewrite app_cons. simpl. by destruct (decide (c = sep)).
Qed.

Lemma rev_app_spec (s t : string) : String.rev_app s t = String.rev s +:+ t.
Proof.
  unfold String.rev. revert t.
  induction s as [|c s IH]; intros t; [done|].
  simpl. rewrite (IH (String c "")), IH. by rewrite app_assoc.
Qed.

Lemma rev_cons (c : ascii) (s : string) :
  String.rev (String c s) = String.rev s +:+ String c "".
Proof. unfold String.rev at 1. simpl. apply rev_app_spec. Qed.

Lemma rev_app_distr (s t : string) :
  String.rev (s +:+ t) = String.rev t +:+ String.rev s.
Proof.
  induction s as [|c s IH].
  - by rewrite app_nil_l, app_nil_r.
  - by rewrite app_cons, !rev_cons, IH, app_assoc.
Qed.

Lemma rev_involutive (s : string) : String.rev (String.rev s) = s.
Proof.
  induction s as [|c s IH]; [done|].
  by rewrite rev_cons, rev_app_distr, IH.
Qed.

Lemma Contains_rev (s : string) (sep : ascii) :
  Contains (String.rev s) sep = Contains s sep.
Proof.
  induction s as [|c s IH]; [done|].
  rewrite rev_cons, Contains_app, IH. simpl.
  destruct (decide (c = sep)); [apply orb_true_r | apply orb_false_r].
Qed.

(** *** Cutting at the first separator *)

Lemma cutAtIndex_None (s : string) (sep : ascii) :
  cutAtIndex s sep = None ↔ Contains s sep = false.
Proof.
  induction s as [|c s IH]; simpl; [done|].
  destruct (decide (c = sep)); [done|].
  destruct (cutAtIndex s sep) as [[??]|]; [|tauto].
  split; [done|]. intros H%IH. discriminate.
Qed.

Lemma cutAtIndex_Some (s : string) (sep : ascii) (before after : string) :
  cutAtIndex s sep = Some (before, after) ↔
  s = before +:+ String sep after ∧ Contains before sep = false.
Proof.
  revert before. induction s as [|c s IH]; intros before; simpl.
  - split; [done|]. intros [H _]. destruct before; discriminate H.
  - destruct (decide (c = sep)) as [Heq|Hne].
    + subst c. split; [by intros [= <- <-]|].
      intros [H1 H2]. destruct before as [|b before].
      * rewrite app_nil_l in H1. by simplify_eq.
      * rewrite app_cons in H1. simplify_eq. simpl in H2. by case_decide.
    + split.
      * destruct (cutAtIndex s sep) as [[b a]|]; [|done].
        intros [= <- <-]. destruct (IH b) as [[-> Hb] _]; [done|].
        split; [done|]. simpl. by destruct (decide (c = sep)).
      * intros [H1 H2]. destruct before as [|b' before].
        { rewrite app_nil_l in H1. by simplify_eq. }
        rewrite app_cons in H1. simplify_eq. simpl in H2.
        case_decide; [done|].
        destruct (IH before) as [_ IH2]. by rewrite IH2.
Qed.

Lemma Count_app (s t : string) (sep : ascii) :
  Count (s +:+ t) sep = Count s sep + Count t sep.
Proof.
  induction s as [|c s IH]; [done|].
  rewrite app_cons. simpl. destruct (decide (c = sep)); simpl; by rewrite IH.
Qed.

Lemma Count_free (s : string) (sep : ascii) :
  Contains s sep = false → Count s sep = 0.
Proof.
  induction s as [|c s IH]; simpl; [done|]. by destruct (decide (c = sep)).
Qed.

Lemma Count_le_length (s : string) (sep : ascii) :
  (Count s sep ≤ String.length s)%nat.
Proof.
  induction s as [|c s IH]; simpl; [done|]. destruct (decide (c = sep)); lia.
Qed.

Lemma length_app (s t : string) :
  String.length (s +:+ t) = String.length s + String.length t.
Proof. induction s as [|c s IH]; [done|]. rewrite app_cons. simpl. by rewrite IH. Qed.

(** *** Splitting and joining *)

Lemma Join_cons (e e2 : string) (segs : list string) (sep : ascii) :
  Join (e :: e2 :: segs) sep = e +:+ String sep (Join (e2 :: segs) sep).
Proof. reflexivity. Qed.

Lemma genSplit_loop_cut (before after : string) (sep : ascii) (n : nat) :
  free_of sep before →
  genSplit_loop (before +:+ String sep after) sep (S n)
  = before :: genSplit_loop after sep n.
Proof.
  intros Hfree. cbn [genSplit_loop].
  by assert (cutAtIndex (before +:+ String sep after) sep = Some (before, after))
    as -> by by apply cutAtIndex_Some.
Qed.

Lemma genSplit_loop_free (s : string) (sep : ascii) (n : nat) :
  free_of sep s → genSplit_loop s sep n = [s].
Proof.
  intros Hfree%cutAtIndex_None. destruct n; cbn [genSplit_loop]; by rewrite ?Hfree.
Qed.

Lemma genSplit_loop_Join (segs : list string) (sep : ascii) (n : nat) :
  segs ≠ [] → Forall (free_of sep) segs → (length segs ≤ S n)%nat →
  genSplit_loop (Join segs sep) sep n = segs.
Proof.
  revert n. induction segs as [|e segs IH]; intros n Hne Hfree Hlen; [done|].
  apply Forall_cons in Hfree as [He Hfree].
  destruct segs as [|e2 segs].
  - by apply genSplit_loop_free.
  - destruct n as [|n]; [simpl in Hlen; lia|].
    rewrite Join_cons, genSplit_loop_cut by done.
    f_equal. apply IH; [done|done|simpl in *; lia].
Qed.

Lemma Count_Join (segs : list string) (sep : ascii) :
  Forall (free_of sep) segs → Count (Join segs sep) sep = pred (length segs).
Proof.
  induction segs as [|e segs IH]; intros Hfree; [done|].
  apply Forall_cons in Hfree as [He Hfree].
  destruct segs as [|e2 segs]; [by apply Count_free|].
  rewrite Join_cons, Count_app, (Count_free _ _ He). cbn [Count].
  case_decide; [|done]. by rewrite IH.
Qed.

Lemma genSplit_all (s : string) (sep : ascii) :
  genSplit s sep (-1) = genSplit_loop s sep (Count s sep).
Proof.
  unfold genSplit. pose proof (Count_le_length s sep).
  repeat case_decide; try lia. f_equal. lia.
Qed.

(** Splitting the join of separator-free segments gives the segments back. *)
Lemma Split_Join (segs : list string) (sep : ascii) :
  segs ≠ [] → Forall (free_of sep) segs → Split (Join segs sep) sep = segs.
Proof.
  intros Hne Hfree. unfold Split. rewrite genSplit_all, Count_Join by done.
  apply genSplit_loop_Join; [done|done|]. destruct segs; simpl; [done|lia].
Qed.

Lemma genSplit_loop_spec (s : string) (sep : ascii) (n : nat) :
  (Count s sep ≤ n)%nat →
  genSplit_loop s sep n ≠ [] ∧ Forall (free_of sep) (genSplit_loop s sep n) ∧
  Join (genSplit_loop s sep n) sep = s.
Proof.
  revert s. induction n as [|n IH]; intros s Hn; simpl.
  - split; [done|]. split; [|done]. apply Forall_singleton.
    unfold free_of. destruct (Contains s sep) eqn:Hc; [|done].
    destruct (cutAtIndex s sep) as [[b a]|] eqn:Hcut.
    + apply cutAtIndex_Some in Hcut as [-> _].
      rewrite Count_app in Hn. simpl in Hn. case_decide; [lia|done].
    + apply cutAtIndex_None in Hcut. congruence.
  - destruct (cutAtIndex s sep) as [[b a]|] eqn:Hcut.
    + apply cutAtIndex_Some in Hcut as [-> Hb].
      rewrite Count_app in Hn. simpl in Hn. case_decide; [|done].
      destruct (IH a) as (Hne & Hfree & Hjoin); [lia|].
      split; [done|]. split; [by apply Forall_cons|].
      destruct (genSplit_loop a sep n) as [|e r]; [done|].
      by rewrite Join_cons, Hjoin.
    + apply cutAtIndex_None in Hcut.
      split; [done|]. split; [by apply Forall_singleton|done].
Qed.

(** [Split] yields at least one part, no part holds the separator, and the
    parts joined by the separator are the string. *)
Lemma Split_spec (s : string) (sep : ascii) :
  Split s sep ≠ [] ∧ Forall (free_of sep) (Split s sep) ∧
  Join (Split s sep) sep = s.
Proof. unfold Split. rewrite genSplit_all. by apply genSplit_loop_spec. Qed.

(** The parts [Split] finds are the segments of the specification. *)
Lemma segments_of_Split (key : string) (segs : list string) :
  segments_of key segs ↔ Split key "." = segs.
Proof.
  split.
  - intros (Hne & Hfree & <-). by apply Split_Join.
  - intros <-. apply Split_spec.
Qed.

(** [SplitN(s, sep, 2)] cuts at the first separator only. *)
Lemma SplitN_2_cut (before after : string) (sep : ascii) :
  free_of sep before →
  SplitN (before +:+ String sep after) sep 2 = [before; after].
Proof.
  intros Hfree. unfold SplitN, genSplit.
  rewrite length_app. simpl String.length.
  repeat case_decide; try lia.
  change (Z.to_nat (2 - 1)) with 1%nat.
  rewrite genSplit_loop_cut by done. done.
Qed.

(** Without a separator [SplitN(s, sep, 2)] has one part. *)
Lemma SplitN_2_free (s : string) (sep : ascii) :
  free_of sep s → SplitN s sep 2 = [s].
Proof.
  intros Hfree. unfold SplitN, genSplit.
  repeat case_decide; try lia; by apply genSplit_loop_free.
Qed.

(** A string with the separator is a separator-free part, the separator,
    and the rest. *)
Lemma Contains_cut (s : string) (sep : ascii) :
  Contains s sep = true →
  ∃ before after, s = before +:+ String sep after ∧ free_of sep before.
Proof.
  intros Hc. destruct (cutAtIndex s sep) as [[b a]|] eqn:Hcut.
  - apply cutAtIndex_Some in Hcut. by exists b, a.
  - apply cutAtIndex_None in Hcut. congruence.
Qed.

Lemma Contains_cut_true (before after : string) (sep : ascii) :
  Contains (before +:+ String sep after) sep = true.
Proof.
  rewrite Contains_app. simpl. case_decide; [|done]. apply orb_true_r.
Qed.

(** *** Trimming *)

Lemma space_run_app p2 p3 (l1 l2 : string) :
  space_run p2 p3 l1 → space_run p2 p3 l2 → space_run p2 p3 (l1 +:+ l2).
Proof.
  induction 1 as [|c s Hc _ IH|c1 c2 s Hc _ IH|c1 c2 c3 s Hc _ IH]; intros H2;
    rewrite ?app_cons, ?app_nil_l; [done|..].
  - apply space_run_ascii; auto.
  - apply space_run_two; auto.
  - apply space_run_three; auto.
Qed.

(** Read backwards, a run of spaces in the reversed encodings is a run of
    spaces. *)
Lemma space_run_rev p2 p3 (l : string) :
  space_run (λ c2 c1, p2 c1 c2) (λ c3 c2 c1, p3 c1 c2 c3) l →
  space_run p2 p3 (String.rev l).
Proof.
  induction 1 as [|c s Hc _ IH|c1 c2 s Hc _ IH|c1 c2 c3 s Hc _ IH];
    rewrite ?rev_cons, ?app_assoc; [constructor|..];
    (apply space_run_app; [done|]); rewrite ?app_cons, ?app_nil_l.
  - by apply space_run_ascii; [|constructor].
  - by apply space_run_two; [|constructor].
  - by apply space_run_three; [|constructor].
Qed.

(** [dropSpaces] removes a run of spaces from the front. *)
Lemma dropSpaces_spec p2 p3 (s : string) :
  ∃ l, s = l +:+ dropSpaces p2 p3 s ∧ space_run p2 p3 l.
Proof.
  remember (String.length s) as n eqn:Hn.
  revert s Hn. induction (lt_wf n) as [n _ IH]; intros s ->.
  destruct s as [|c1 s1]; [exists ""; split; [done|constructor]|].
  cbn [dropSpaces]. destruct (asciiSpace c1) eqn:H1.
  { destruct (IH (String.length s1)) with (s := s1) as (l & Hl & Hrun);
      [simpl; lia|done|].
    exists (String c1 l). rewrite app_cons, <-Hl.
    split; [done|by apply space_run_ascii]. }
  destruct s1 as [|c2 s2]; [exists ""; split; [done|constructor]|].
  destruct (p2 c1 c2) eqn:H2.
  { destruct (IH (String.length s2)) with (s := s2) as (l & Hl & Hrun);
      [simpl; lia|done|].
    exists (String c1 (String c2 l)). rewrite !app_cons, <-Hl.
    split; [done|by apply space_run_two]. }
  destruct s2 as [|c3 s3]; [exists ""; split; [done|constructor]|].
  destruct (p3 c1 c2 c3) eqn:H3; [|exists ""; split; [done|constructor]].
  destruct (IH (String.length s3)) with (s := s3) as (l & Hl & Hrun);
    [simpl; lia|done|].
  exists (String c1 (String c2 (String c3 l))). rewrite !app_cons, <-Hl.
  split; [done|by apply space_run_three].
Qed.

(** [TrimSpace] removes a run of white space at each end, and nothing
    else. *)
Lemma TrimSpace_spec (s : string) :
  ∃ l r, s = l +:+ TrimSpace s +:+ r ∧ whitespace l ∧ whitespace r.
Proof.
  unfold TrimSpace, trimRightSpace, trimLeftSpace.
  destruct (dropSpaces_spec space2 space3 s) as (l & Hl & Hrunl).
  set (t := dropSpaces space2 space3 s) in *.
  destruct (dropSpaces_spec (λ c2 c1, space2 c1 c2)
              (λ c3 c2 c1, space3 c1 c2 c3) (String.rev t)) as (r & Hr & Hrunr).
  exists l, (String.rev r). split; [|split; [done|by apply space_run_rev]].
  rewrite <-rev_app_distr, <-Hr, rev_involutive. done.
Qed.

(** A white-space rune has no byte below 128 other than the six ASCII
    spaces; in particular a run of spaces holds no "=" . *)
Lemma whitespace_free (l : string) (c : ascii) :
  (nat_of_ascii c < 128)%nat → asciiSpace c = false →
  whitespace l → free_of c l.
Proof.
  intros Hc Hns. unfold whitespace, free_of.
  induction 1 as [|c1 s H1 _ IH|c1 c2 s H2 _ IH|c1 c2 c3 s H3 _ IH];
    [done|..]; cbn [Contains]; repeat case_decide; subst; try done.
  - congruence.
  - unfold space2 in H2. apply andb_true_iff in H2 as [H2 _].
    apply bool_decide_eq_true in H2. subst. vm_compute in Hc. lia.
  - unfold space2 in H2. apply andb_true_iff in H2 as [_ H2].
    apply bool_decide_eq_true in H2.
    rewrite !elem_of_cons, elem_of_nil in H2.
    destruct H2 as [->|[->|[]]]; vm_compute in Hc; lia.
  - unfold space3 in H3. rewrite !orb_true_iff, !bool_decide_eq_true in H3. lia.
  - unfold space3 in H3. rewrite !orb_true_iff, !bool_decide_eq_true in H3. lia.
  - unfold space3 in H3. rewrite !orb_true_iff, !bool_decide_eq_true in H3. lia.
Qed.

(** Trimming neither removes nor adds a byte such as "=" . *)
Lemma Contains_TrimSpace (s : string) (c : ascii) :
  (nat_of_ascii c < 128)%nat → asciiSpace c = false →
  Contains (TrimSpace s) c = Contains s c.
Proof.
  intros Hc Hns. destruct (TrimSpace_spec s) as (l & r & Hs & Hl & Hr).
  rewrite Hs at 2. rewrite !Contains_app.
  rewrite (whitespace_free l c), (whitespace_free r c) by done.
  by rewrite orb_false_r.
Qed.

(** *** Blank lines and comments *)

Lemma HasPrefix_byte (s : string) (c : ascii) :
  HasPrefix s (String c "") = true ↔ ∃ rest, s = String c rest.
Proof.
  unfold HasPrefix. destruct s as [|c' s]; cbn.
  - split; [done|]. by intros [? ?].
  - destruct (ascii_dec c c') as [->|Hne].
    + split; [eauto|]. by destruct s.
    + split; [done|]. intros [? [= -> _]]. done.
Qed.

(** The first byte of a longer encoding is not an ASCII space, and the
    first two bytes of a three-byte one are not a two-byte one. *)
Lemma space2_first (c1 c2 : ascii) :
  space2 c1 c2 = true → asciiSpace c1 = false.
Proof.
  unfold space2. intros [H _]%andb_true_iff.
  apply bool_decide_eq_true in H. by subst.
Qed.

Lemma space3_first (c1 c2 c3 : ascii) :
  space3 c1 c2 c3 = true → asciiSpace c1 = false ∧ space2 c1 c2 = false.
Proof.
  unfold space3. rewrite !orb_true_iff, !bool_decide_eq_true. intros H.
  split.
  - unfold asciiSpace. apply bool_decide_eq_false.
    rewrite !elem_of_cons, elem_of_nil.
    intros [->|[->|[->|[->|[->|[->|[]]]]]]]; vm_compute in H; lia.
  - unfold space2. apply andb_false_iff. left. apply bool_decide_eq_false.
    intros ->. vm_compute in H. lia.
Qed.

(** A line of white space only trims to nothing. *)
Lemma TrimSpace_whitespace (s : string) : whitespace s → TrimSpace s = "".
Proof.
  intros Hs. unfold TrimSpace.
  assert (trimLeftSpace s = "") as ->; [|done].
  unfold trimLeftSpace.
  induction Hs as [|c s Hc _ IH|c1 c2 s Hc _ IH|c1 c2 c3 s Hc _ IH];
    [done|..]; cbn [dropSpaces].
  - by rewrite Hc.
  - by rewrite (space2_first _ _ Hc), Hc.
  - destruct (space3_first _ _ _ Hc) as [-> ->]. by rewrite Hc.
Qed.

(** Trimming leaves a leading "#" where it is. *)
Lemma TrimSpace_comment (s : string) :
  HasPrefix s "#" = true → HasPrefix (TrimSpace s) "#" = true.
Proof.
  intros [rest ->]%HasPrefix_byte.
  destruct (TrimSpace_spec (String "#" rest)) as (l & r & Hs & Hl & Hr).
  assert (∀ w, whitespace w → free_of "#" w) as Hfree.
  { intros w. apply whitespace_free; [vm_compute; lia|reflexivity]. }
  apply HasPrefix_byte.
  destruct l as [|c l].
  - rewrite app_nil_l in Hs. destruct (TrimSpace (String "#" rest)) as [|c t].
    + rewrite app_nil_l in Hs. subst r. by apply Hfree in Hr.
    + rewrite app_cons in Hs. injection Hs as -> _. eauto.
  - rewrite app_cons in Hs. injection Hs as <- _. by apply Hfree in Hl.
Qed.

(** ** The "conf" decoder *)

Lemma Contains_TrimSpace_equals (s : string) :
  Contains (TrimSpace s) "=" = Contains s "=".
Proof. apply Contains_TrimSpace; [vm_compute; lia|reflexivity]. Qed.

Lemma conf_line_defines (raw : gmap string string) (line key val : string) :
  line_defines line key val → conf_line raw line = <[key := val]> raw.
Proof.
  intros (before & after & Ht & Hfree & Hpre & -> & ->).
  unfold conf_line. cbv zeta. rewrite Hpre, Ht.
  rewrite bool_decide_eq_false_2 by (destruct before; discriminate).
  cbn [orb]. by rewrite SplitN_2_cut.
Qed.

Lemma conf_line_ignored (raw : gmap string string) (line : string) :
  line_ignored line → conf_line raw line = raw.
Proof.
  intros [Hblank|[Hcomment|Hfree]]; unfold conf_line; cbv zeta.
  - by rewrite Hblank.
  - rewrite Hcomment. by rewrite orb_true_r.
  - destruct (_ || _); [done|]. rewrite SplitN_2_free; [done|].
    unfold free_of. by rewrite Contains_TrimSpace_equals.
Qed.

(** Every line is ignored or defines one key. *)
Lemma conf_line_cases (line : string) :
  line_ignored line ∨ ∃ key val, line_defines line key val.
Proof.
  destruct (decide (TrimSpace line = "")) as [|Hblank]; [by left; left|].
  destruct (HasPrefix (TrimSpace line) "#") eqn:Hcomment; [by left; right; left|].
  destruct (Contains (TrimSpace line) "=") eqn:Heq.
  - right. apply Contains_cut in Heq as (before & after & Ht & Hfree).
    exists (TrimSpace before), (TrimSpace after), before, after. done.
  - left. right. right. unfold free_of. by rewrite <-Contains_TrimSpace_equals.
Qed.

Lemma conf_lines_other_key (raw : gmap string string) (lines : list string)
    (key : string) :
  Forall (λ line, ∀ val, ¬ line_defines line key val) lines →
  foldl conf_line raw lines !! key = raw !! key.
Proof.
  revert raw. induction lines as [|line lines IH]; intros raw Hother; [done|].
  apply Forall_cons in Hother as [Hline Hother]. cbn [foldl].
  rewrite IH by done.
  destruct (conf_line_cases line) as [Hign|(key' & val' & Hdef)].
  - by rewrite conf_line_ignored.
  - rewrite (conf_line_defines _ _ _ _ Hdef). apply lookup_insert_ne.
    intros ->. by eapply Hline.
Qed.

Lemma conf_lines_last_wins (raw : gmap string string) (pre post : list string)
    (line key val : string) :
  line_defines line key val →
  Forall (λ line, ∀ val, ¬ line_defines line key val) post →
  foldl conf_line raw (pre ++ line :: post)%list !! key = Some val.
Proof.
  intros Hdef Hother. rewrite foldl_app. cbn [foldl].
  rewrite conf_lines_other_key by done.
  rewrite (conf_line_defines _ _ _ _ Hdef). apply lookup_insert_eq.
Qed.

Lemma conf_lines_skip (raw : gmap string string) (pre post : list string)
    (line : string) :
  line_ignored line →
  foldl conf_line raw (pre ++ line :: post)%list = foldl conf_line raw (pre ++ post)%list.
Proof.
  intros Hign. rewrite !foldl_app. cbn [foldl]. by rewrite conf_line_ignored.
Qed.

Lemma newConfigParserFromBytes_conf (lib : Decoders) (content : string) :
  newConfigParserFromBytes lib "conf" content
  = (Some {| data := ∅; raw := foldl conf_line ∅ (Split content (byte 10));
             fileType := "conf"; iniFile := None |}, None).
Proof. reflexivity. Qed.

Lemma Get_conf (c : ConfigParserObj) (key : string) :
  fileType c = "conf" →
  Get c key = (match raw c !! key with
               | Some val => Returns val None
               | None => Returns "" (Some (KeyNotFound key))
               end, c).
Proof. intros Hc. unfold Get. rewrite Hc. cbn. by destruct (raw c !! key). Qed.

(** ** The section table *)

Lemma sectionName_nonempty (name : string) : ini.sectionName name ≠ "".
Proof. unfold ini.sectionName. by case_decide. Qed.

Lemma stored_insert_section (f : ini.File) (sec : string)
    (keys : gmap string string) (s k : string) :
  stored (<[sec := keys]> f) s k
  = if decide (sec = s) then keys !! k else stored f s k.
Proof.
  unfold stored. rewrite lookup_insert. by case_decide.
Qed.

Lemma only_empty_added_refl (f : ini.File) : only_empty_added f f.
Proof. split; [done|]. split; [done|]. intros s k v ?. by left. Qed.

Lemma only_empty_added_trans (f1 f2 f3 : ini.File) :
  only_empty_added f1 f2 → only_empty_added f2 f3 → only_empty_added f1 f3.
Proof.
  intros (Hs1 & Hk1 & Hn1) (Hs2 & Hk2 & Hn2). split; [auto|]. split; [auto|].
  intros s k v H3. destruct (Hn2 s k v H3) as [H2|?]; [|by right].
  by apply Hn1.
Qed.

(** Added sections and keys do not show in any look-up. *)
Lemma only_empty_added_looked_up (f f' : ini.File) (s k : string) :
  only_empty_added f f' → looked_up f' s k = looked_up f s k.
Proof.
  intros (_ & Hk & Hn). unfold looked_up.
  destruct (stored f s k) as [v|] eqn:Hf; [by rewrite (Hk _ _ _ Hf)|].
  destruct (stored f' s k) as [v'|] eqn:Hf'; [|done].
  destruct (Hn _ _ _ Hf') as [?|[-> Hne]]; [congruence|].
  by case_decide.
Qed.

(** [f.Section(name)] hands back a section, registered under [sectionName
    name], which it adds, empty, where there was none. *)
Lemma Section_spec (f : ini.File) (name : string) :
  ∃ f1, ini.Section f name = (f1, Some (ini.sectionName name)) ∧
        is_Some (f1 !! ini.sectionName name) ∧ only_empty_added f f1.
Proof.
  unfold ini.Section, ini.GetSection, ini.NewSection.
  pose proof (sectionName_nonempty name) as Hne.
  destruct (f !! ini.sectionName name) as [keys|] eqn:Hsec.
  - exists f. split; [done|]. split; [by rewrite Hsec|].
    apply only_empty_added_refl.
  - case_decide; [done|]. exists (<[ini.sectionName name := ∅]> f).
    split; [done|]. split; [by rewrite lookup_insert_eq|].
    split; [|split].
    + intros s Hs. rewrite lookup_insert. by case_decide.
    + intros s k v. rewrite stored_insert_section. case_decide; [|done].
      subst s. unfold stored. by rewrite Hsec.
    + intros s k v. rewrite stored_insert_section. case_decide; [done|by left].
Qed.

(** [s.Key(name)] hands back the key [name], which it adds with an empty
    value where there was none, or nil when the name is empty. *)
Lemma Key_spec (f : ini.File) (sec name : string) :
  is_Some (f !! sec) →
  ∃ f2 k, ini.Key f sec name = (f2, k) ∧ only_empty_added f f2 ∧
          ini.String f2 sec k = looked_up f sec name.
Proof.
  intros [keys Hsec]. unfold ini.Key, ini.NewKey, ini.GetKey, looked_up.
  fold (stored f sec name).
  destruct (stored f sec name) as [v|] eqn:Hst.
  - exists f, (Some name). split; [done|]. split; [apply only_empty_added_refl|].
    unfold ini.String, ini.GetKey. fold (stored f sec name). by rewrite Hst.
  - case_decide as Hname.
    + exists f, None. split; [done|]. split; [apply only_empty_added_refl|done].
    + rewrite Hsec. cbn [default].
      exists (<[sec := <[name := ""]> keys]> f), (Some name).
      split; [done|]. split; [split; [|split]|].
      * intros s Hs. rewrite lookup_insert. by case_decide.
      * intros s k v. rewrite stored_insert_section. case_decide; [|done].
        subst s. unfold stored. rewrite Hsec. cbn. intros Hk.
        rewrite lookup_insert_ne; [done|]. intros ->.
        unfold stored in Hst. rewrite Hsec in Hst. cbn in Hst. congruence.
      * intros s k v. rewrite stored_insert_section. case_decide; [|by left].
        subst s. rewrite lookup_insert. case_decide.
        -- intros [= <-]. subst k. by right.
        -- intros Hk. left. unfold stored. by rewrite Hsec.
      * unfold ini.String, ini.GetKey. rewrite lookup_insert_eq. cbn.
        by rewrite lookup_insert_eq.
Qed.

(** [f.Section(section).Key(name).String()] yields what the table holds for
    the key, and adds nothing but an empty section or a key of empty
    value. *)
Lemma Section_Key_String_spec (f : ini.File) (section name : string) :
  ∃ f', ini.Section_Key_String f section name
        = (f', looked_up f (ini.sectionName section) name) ∧
        only_empty_added f f'.
Proof.
  unfold ini.Section_Key_String.
  destruct (Section_spec f section) as (f1 & -> & Hsec & Hadd1).
  destruct (Key_spec f1 (ini.sectionName section) name Hsec)
    as (f2 & k & -> & Hadd2 & ->).
  exists f2. split; [|by eapply only_empty_added_trans].
  by rewrite (only_empty_added_looked_up f f1).
Qed.

(** ** Construction *)


(** ** [getNestedValue] *)

Lemma getNestedValue_loop_resolves (v v' : value) (segs : list string) :
  resolves v segs v' → getNestedValue_loop v segs = (v', true).
Proof.
  induction 1 as [v|m seg next segs v Hseg _ IH]; [done|].
  cbn [getNestedValue_loop]. by rewrite Hseg.
Qed.

Lemma getNestedValue_loop_stuck (v : value) (segs : list string) :
  stuck v segs → getNestedValue_loop v segs = (VNil, false).
Proof.
  induction 1 as [v seg segs Hv|m seg segs Hseg|m seg next segs Hseg _ IH];
    cbn [getNestedValue_loop].
  - destruct v; try done. by destruct (Hv m).
  - by rewrite Hseg.
  - by rewrite Hseg.
Qed.

(** The walk either arrives at a value or fails on the way. *)
Lemma resolves_or_stuck (v : value) (segs : list string) :
  (∃ v', resolves v segs v') ∨ stuck v segs.
Proof.
  revert v. induction segs as [|seg segs IH]; intros v.
  { left. exists v. constructor. }
  destruct v as [| | | | |m|];
    try (right; by apply stuck_not_mapping).
  destruct (m !! seg) as [next|] eqn:Hseg; [|right; by apply stuck_missing].
  destruct (IH next) as [[v' Hv']|Hstuck].
  - left. exists v'. by eapply resolves_step.
  - right. by eapply stuck_below.
Qed.

Lemma Get_nested (c : ConfigParserObj) (key : string) :
  fileType c = "json" ∨ fileType c = "yaml" →
  Get c key = (match getNestedValue (data c) key with
               | (val, true) => Returns (fmt.Sprintf_v val) None
               | (_, false) => Returns "" (Some (KeyNotFound key))
               end, c).
Proof.
  intros Hc. unfold Get.
  destruct Hc as [-> | ->]; cbn; by destruct (getNestedValue _ _) as [? []].
Qed.

Lemma Get_nested_resolves (c : ConfigParserObj) (key : string)
    (segs : list string) (v : value) :
  fileType c = "json" ∨ fileType c = "yaml" →
  segments_of key segs → resolves (VMap (data c)) segs v →
  Get c key = (Returns (fmt.Sprintf_v v) None, c).
Proof.
  intros Hc Hsegs%segments_of_Split Hres. rewrite Get_nested by done.
  unfold getNestedValue. rewrite Hsegs.
  by rewrite (getNestedValue_loop_resolves _ _ _ Hres).
Qed.

Lemma Get_nested_stuck (c : ConfigParserObj) (key : string)
    (segs : list string) :
  fileType c = "json" ∨ fileType c = "yaml" →
  segments_of key segs → stuck (VMap (data c)) segs →
  Get c key = (Returns "" (Some (KeyNotFound key)), c).
Proof.
  intros Hc Hsegs%segments_of_Split Hstuck. rewrite Get_nested by done.
  unfold getNestedValue. rewrite Hsegs.
  by rewrite (getNestedValue_loop_stuck _ _ Hstuck).
Qed.

(** ** [Get] on a section table *)

Lemma with_iniFile_same (c : ConfigParserObj) (f : ini.File) :
  iniFile c = Some f → with_iniFile c f = c.
Proof. destruct c. cbn. by intros ->. Qed.

(** A key without a dot is looked up in the default section. *)
Lemma Get_ini_plain (c : ConfigParserObj) (f : ini.File) (key : string) :
  fileType c = "ini" → iniFile c = Some f → free_of "." key →
  ∃ f', only_empty_added f f' ∧
    Get c key = (ini_result (looked_up f ini.DefaultSection key) (KeyNotFound key),
                 with_iniFile c f').
Proof.
  intros Hc Hf Hfree. unfold Get. rewrite Hc, Hf, Hfree. cbn.
  destruct (Section_Key_String_spec f "" key) as (f' & -> & Hadd).
  by exists f'.
Qed.

(** A key with a dot is cut at the first one. *)
Lemma Get_ini_dotted (c : ConfigParserObj) (f : ini.File) (section rest : string) :
  fileType c = "ini" → iniFile c = Some f → free_of "." section →
  ∃ f', only_empty_added f f' ∧
    Get c (section +:+ String "." rest)
    = (ini_result (looked_up f (ini.sectionName section) rest)
                  (KeyNotFoundInSection rest section),
       with_iniFile c f').
Proof.
  intros Hc Hf Hfree. unfold Get.
  rewrite Hc, Hf, Contains_cut_true, SplitN_2_cut by done. cbn.
  destruct (Section_Key_String_spec f section rest) as (f' & -> & Hadd).
  by exists f'.
Qed.

(** Whatever the key, [Get] on a section table answers from [looked_up]
    and adds nothing but empty sections and keys of empty value. *)
Lemma Get_ini (c : ConfigParserObj) (f : ini.File) (key : string) :
  fileType c = "ini" → iniFile c = Some f →
  ∃ f' sec name notFound,
    only_empty_added f f' ∧
    Get c key = (ini_result (looked_up f sec name) notFound, with_iniFile c f') ∧
    ∀ c2 f2, fileType c2 = "ini" → iniFile c2 = Some f2 →
      (Get c2 key).1 = ini_result (looked_up f2 sec name) notFound.
Proof.
  intros Hc Hf. destruct (Contains key ".") eqn:Hdot.
  - apply Contains_cut in Hdot as (section & rest & -> & Hfree).
    destruct (Get_ini_dotted c f section rest) as (f' & Hadd & HGet); [done..|].
    exists f', (ini.sectionName section), rest,
      (KeyNotFoundInSection rest section).
    split; [done|]. split; [done|]. intros c2 f2 Hc2 Hf2.
    destruct (Get_ini_dotted c2 f2 section rest) as (? & _ & ->); done.
  - destruct (Get_ini_plain c f key) as (f' & Hadd & HGet); [done..|].
    exists f', ini.DefaultSection, key, (KeyNotFound key).
    split; [done|]. split; [done|]. intros c2 f2 Hc2 Hf2.
    destruct (Get_ini_plain c2 f2 key) as (? & _ & ->); done.
Qed.

(** ** What [Get] leaves behind *)

Lemma Get_other_formats (c : ConfigParserObj) (key : string) :
  fileType c ≠ "ini" → (Get c key).2 = c.
Proof.
  intros Hc. unfold Get.
  destruct (decide (fileType c = "conf")); [by destruct (raw c !! key)|].
  destruct (decide (fileType c = "ini")); [done|].
  destruct (_ || _); [|done]. by destruct (getNestedValue _ _) as [? []].
Qed.

Lemma Get_nil_iniFile (c : ConfigParserObj) (key : string) :
  iniFile c = None → (Get c key).2 = c.
Proof.
  intros Hf. destruct (decide (fileType c = "ini")) as [Hc|Hc];
    [|by apply Get_other_formats].
  unfold Get. rewrite Hc, Hf. done.
Qed.


(** A call of [Get] does not change what any later call answers. *)
Lemma Get_stable (c : ConfigParserObj) (key key' : string) :
  (Get (Get c key).2 key').1 = (Get c key').1.
Proof.
  destruct (decide (fileType c = "ini")) as [Hc|Hc];
    [|by rewrite Get_other_formats].
  destruct (iniFile c) as [f|] eqn:Hf; [|by rewrite Get_nil_iniFile].
  destruct (Get_ini c f key) as (f' & ? & ? & ? & Hadd & -> & _); [done..|].
  destruct (Get_ini c f key') as (? & sec & name & nf & _ & -> & Hany); [done..|].
  cbn [fst snd]. rewrite (Hany (with_iniFile c f') f') by done.
  by rewrite (only_empty_added_looked_up f f').
Qed.

Lemma after_Gets_snoc (c : ConfigParserObj) (keys : list string) (key : string) :
  after_Gets c (keys ++ [key])%list = (Get (after_Gets c keys) key).2.
Proof. unfold after_Gets. by rewrite foldl_app. Qed.

Lemma Get_after_Gets (c : ConfigParserObj) (keys : list string) (key : string) :
  (Get (after_Gets c keys) key).1 = (Get c key).1.
Proof.
  induction keys as [|k keys IH] using rev_ind; [done|].
  by rewrite after_Gets_snoc, Get_stable.
Qed.

(** * The claims of the specification *)

(** ** Construction *)

(** C6.  A format tag other than "conf", "ini", "json" and "yaml" makes
    construction fail with the unsupported-file-type error, whatever the
    bytes (the empty content included), and no object is handed back. *)
Theorem unsupported_file_type_fails (lib : Decoders) (fileType content : string) :
  fileType ∉ ["conf"; "ini"; "json"; "yaml"] →
  newConfigParserFromBytes lib fileType content
  = (None, Some (UnsupportedFileType fileType)).
Proof.
  intros Hnot. unfold newConfigParserFromBytes.
  repeat case_decide; subst; try done; exfalso; apply Hnot; set_solver.
Qed.

Lemma unsupported_file_type_fails_witness :
  newConfigParserFromBytes (fixed_decoders ∅ ∅ ∅) "toml" ""
  = (None, Some (UnsupportedFileType "toml")).
Proof.
  apply (unsupported_file_type_fails (fixed_decoders ∅ ∅ ∅) "toml" "").
  rewrite !elem_of_cons, elem_of_nil.
  intros [H|[H|[H|[H|[]]]]]; discriminate H.
Defined.

(** C10.  Construction from a "conf" document never fails, whatever the
    bytes; a line without [=] is passed over: the flat map is the one of
    the document without that line. *)
Theorem conf_construction_never_fails (lib : Decoders) (content : string) :
  ∃ c, newConfigParserFromBytes lib "conf" content = (Some c, None) ∧
       ∀ pre line post,
         Split content (byte 10) = (pre ++ line :: post)%list →
         free_of "=" line →
         raw c = foldl conf_line ∅ (pre ++ post)%list.
Proof.
  eexists. split; [apply newConfigParserFromBytes_conf|].
  intros pre line post Hlines Hfree. cbn [raw]. rewrite Hlines.
  apply conf_lines_skip. right. by right.
Qed.

Lemma conf_construction_never_fails_witness :
  ∃ c, newConfigParserFromBytes (fixed_decoders ∅ ∅ ∅) "conf"
         ("no equals sign here" +:+ String (byte 10) "key1=value1")
       = (Some c, None) ∧
       raw c = foldl conf_line ∅ ["key1=value1"].
Proof.
  destruct (conf_construction_never_fails (fixed_decoders ∅ ∅ ∅)
              ("no equals sign here" +:+ String (byte 10) "key1=value1"))
    as (c & Hnew & Hskip).
  exists c. split; [exact Hnew|].
  apply (Hskip [] "no equals sign here" ["key1=value1"]); reflexivity.
Defined.

(** C4, as stated, fails: of two lines that define the same key the first
    is not what [Get] returns. *)
Lemma not_every_defining_line_is_returned : ¬ every_defining_line_is_returned.
Proof.
  intros Hall.
  specialize (Hall (fixed_decoders ∅ ∅ ∅) ("a=1" +:+ String (byte 10) "a=2")
                _ [] "a=1" ["a=2"] "a" "1"
                (newConfigParserFromBytes_conf _ _) eq_refl).
  assert (line_defines "a=1" "a" "1") as Hdef.
  { exists "a", "1". repeat split; reflexivity. }
  apply Hall in Hdef. vm_compute in Hdef. discriminate Hdef.
Qed.

(** C4, amended.  In a "conf" document a line that is blank or starts with
    [#] sets nothing; a line with [=] is cut at the first [=] only, both
    sides are trimmed of surrounding white space, and what follows that
    first [=] is the value, further [=] included; [Get] of the key returns
    the value of the last line that defines the key. *)
Theorem conf_last_defining_line_is_returned (lib : Decoders)
    (content : string) (c : ConfigParserObj) (pre post : list string)
    (line : string) :
  newConfigParserFromBytes lib "conf" content = (Some c, None) →
  Split content (byte 10) = (pre ++ line :: post)%list →
  (whitespace line ∨ HasPrefix line "#" = true →
   raw c = foldl conf_line ∅ (pre ++ post)%list) ∧
  (∀ key val,
     line_defines line key val →
     Forall (λ later, ∀ val', ¬ line_defines later key val') post →
     Get c key = (Returns val None, c)).
Proof.
  rewrite newConfigParserFromBytes_conf. intros [= <-] Hlines. split.
  - intros Hign. cbn [raw]. rewrite Hlines. apply conf_lines_skip.
    destruct Hign as [Hblank|Hcomment].
    + left. by apply TrimSpace_whitespace.
    + right. left. by apply TrimSpace_comment.
  - intros key val Hdef Hlater. rewrite Get_conf by done. cbn [raw].
    by rewrite Hlines, (conf_lines_last_wins _ _ _ _ _ _ Hdef Hlater).
Qed.

Lemma conf_last_defining_line_is_returned_witness :
  let content := "# comment" +:+ String (byte 10) "key4 = rAR#vW@='4EV" in
  ∃ c, newConfigParserFromBytes (fixed_decoders ∅ ∅ ∅) "conf" content
       = (Some c, None) ∧
       raw c = foldl conf_line ∅ ["key4 = rAR#vW@='4EV"] ∧
       Get c "key4" = (Returns "rAR#vW@='4EV" None, c).
Proof.
  intros content. eexists. split; [reflexivity|]. split.
  - refine (proj1 (conf_last_defining_line_is_returned (fixed_decoders ∅ ∅ ∅)
              content _ [] ["key4 = rAR#vW@='4EV"] "# comment"
              eq_refl eq_refl) _).
    right. reflexivity.
  - refine (proj2 (conf_last_defining_line_is_returned (fixed_decoders ∅ ∅ ∅)
              content _ ["# comment"] [] "key4 = rAR#vW@='4EV"
              eq_refl eq_refl) "key4" "rAR#vW@='4EV" _ _).
    + exists "key4 ", " rAR#vW@='4EV". repeat split; reflexivity.
    + constructor.
Defined.

(** ** Look-up in a tree *)

(** C2.  For "json" and "yaml" [Get] splits the key on every dot and walks
    the tree along the segments: where every segment is a key of the
    mapping reached so far, it returns the value arrived at, printed;
    where the value reached is not a mapping or lacks the next segment, it
    returns the key-not-found error for the whole key and the empty
    string.  One of the two is always the case. *)
Theorem Get_nested_walks_every_segment (c : ConfigParserObj) (key : string)
    (segs : list string) :
  fileType c = "json" ∨ fileType c = "yaml" →
  segments_of key segs →
  (∀ v, resolves (VMap (data c)) segs v →
        Get c key = (Returns (fmt.Sprintf_v v) None, c)) ∧
  (stuck (VMap (data c)) segs →
   Get c key = (Returns "" (Some (KeyNotFound key)), c)) ∧
  ((∃ v, resolves (VMap (data c)) segs v) ∨ stuck (VMap (data c)) segs).
Proof.
  intros Hc Hsegs. split; [|split].
  - intros v. by apply Get_nested_resolves.
  - by apply Get_nested_stuck.
  - apply resolves_or_stuck.
Qed.

Lemma Get_nested_walks_every_segment_witness :
  let c := {| data := {[ "section1" := VMap {[ "foo" := VString "bar" ]};
                         "plain" := VString "top" ]};
              raw := ∅; fileType := "json"; iniFile := None |} in
  Get c "section1.foo" = (Returns "bar" None, c) ∧
  Get c "plain.foo" = (Returns "" (Some (KeyNotFound "plain.foo")), c).
Proof.
  intros c. split.
  - refine (proj1 (Get_nested_walks_every_segment c "section1.foo"
                     ["section1"; "foo"] (or_introl eq_refl) _)
                  (VString "bar") _).
    + split; [done|]. split; [|reflexivity].
      repeat constructor.
    + eapply resolves_step; [reflexivity|].
      eapply resolves_step; [reflexivity|]. constructor.
  - refine (proj1 (proj2 (Get_nested_walks_every_segment c "plain.foo"
                     ["plain"; "foo"] (or_introl eq_refl) _)) _).
    + split; [done|]. split; [|reflexivity].
      repeat constructor.
    + eapply stuck_below; [reflexivity|]. by apply stuck_not_mapping.
Defined.

(** C5.  For "json" and "yaml", a key whose path ends on a mapping is not
    an error: [Get] returns the mapping as [%v] prints it, [map[k:v ...]]. *)
Theorem Get_nested_mapping_is_printed (c : ConfigParserObj) (key : string)
    (segs : list string) (m : gmap string value) :
  fileType c = "json" ∨ fileType c = "yaml" →
  segments_of key segs →
  resolves (VMap (data c)) segs (VMap m) →
  Get c key = (Returns (fmt.Sprintf_v (VMap m)) None, c) ∧
  ∃ entries, fmt.Sprintf_v (VMap m) = "map[" +:+ entries +:+ "]".
Proof.
  intros Hc Hsegs Hres. split; [by eapply Get_nested_resolves|].
  cbn [fmt.Sprintf_v]. unfold fmt.printMap. eauto.
Qed.

Lemma Get_nested_mapping_is_printed_witness :
  let c := {| data := {[ "server" := VMap {[ "host" := VString "localhost";
                                             "port" := VNumber "8080" ]} ]};
              raw := ∅; fileType := "yaml"; iniFile := None |} in
  Get c "server" = (Returns "map[host:localhost port:8080]" None, c).
Proof.
  intros c.
  refine (proj1 (Get_nested_mapping_is_printed c "server" ["server"]
                   {[ "host" := VString "localhost"; "port" := VNumber "8080" ]}
                   (or_intror eq_refl) _ _)).
  - split; [done|]. split; [|reflexivity]. repeat constructor.
  - eapply resolves_step; [reflexivity|]. constructor.
Defined.

(** ** Look-up in a section table *)

Lemma ini_result_error (val : option string) (notFound e : error) (s : string) :
  ini_result val notFound = Returns s (Some e) → s = "" ∧ e = notFound.
Proof.
  unfold ini_result. destruct val as [v|]; [|done].
  case_decide; [|done]. by intros [= <- <-].
Qed.



(** C1, at the input where the code departs from it.  For "ini", a key that
    is in its section with an empty value is reported as not found. *)
Theorem Get_ini_empty_value_reported_missing (c : ConfigParserObj)
    (f : ini.File) (section name : string) :
  fileType c = "ini" → iniFile c = Some f → free_of "." section →
  stored f (ini.sectionName section) name = Some "" →
  (Get c (section +:+ String "." name)).1
  = Returns "" (Some (KeyNotFoundInSection name section)).
Proof.
  intros Hc Hf Hfree Hstored.
  destruct (Get_ini_dotted c f section name) as (f' & _ & ->); [done..|].
  cbn [fst]. unfold looked_up. by rewrite Hstored.
Qed.

Lemma Get_ini_empty_value_reported_missing_witness :
  let f : ini.File := {[ "DEFAULT" := ∅; "s" := {[ "k" := "" ]} ]} in
  ∃ c, newConfigParserFromBytes (fixed_decoders f ∅ ∅) "ini"
         ("[s]" +:+ String (byte 10) "k =" +:+ String (byte 10) "")
       = (Some c, None) ∧
       stored f "s" "k" = Some "" ∧
       (Get c "s.k").1 = Returns "" (Some (KeyNotFoundInSection "k" "s")).
Proof.
  intros f.
  pose (c := {| data := ∅; raw := ∅; fileType := "ini"; iniFile := Some f |}).
  exists c. split; [reflexivity|]. split; [reflexivity|].
  exact (Get_ini_empty_value_reported_missing c f "s" "k"
           eq_refl eq_refl eq_refl eq_refl).
Defined.

(** ** Errors and repeated calls *)



(** C9.  Repeated calls of [Get] with one key give one result: after any
    number of such calls, a further one returns what the first returned. *)
Theorem Get_repeated_gives_same_result (c : ConfigParserObj) (key : string)
    (n : nat) :
  (Get (after_repeated c key n) key).1 = (Get c key).1.
Proof. apply Get_after_Gets. Qed.




(** * Further properties of the code *)

(** ** [newConfigParserFromBytes] *)

Lemma supported_cases (fileType : string) :
  fileType ∈ supported ↔
  fileType = "conf" ∨ fileType = "ini" ∨ fileType = "json" ∨ fileType = "yaml".
Proof. unfold supported. rewrite !elem_of_cons, elem_of_nil. tauto. Qed.

(** The pointer and the error are never both nil, nor both set. *)
Lemma newConfigParserFromBytes_one_of_two (lib : Decoders)
    (fileType content : string) :
  (∃ c, newConfigParserFromBytes lib fileType content = (Some c, None)) ∨
  (∃ e, newConfigParserFromBytes lib fileType content = (None, Some e)).
Proof.
  unfold newConfigParserFromBytes. repeat case_decide; eauto.
  - destruct (ini_Load lib content); eauto.
  - destruct (json_Unmarshal lib content); eauto.
  - destruct (yaml_Unmarshal lib content); eauto.
Qed.

(** X1.  [newConfigParserFromBytes] hands back an object or an error, never
    both and never neither.  It fails in two ways only: the tag is none of
    the four, with the unsupported-file-type error, or the decoder of the
    tag fails, with the decoder's own error; "conf" has no decoder that can
    fail. *)
Theorem newConfigParserFromBytes_failures (lib : Decoders)
    (fileType content : string) :
  ((∃ c, newConfigParserFromBytes lib fileType content = (Some c, None)) ∨
   (∃ e, newConfigParserFromBytes lib fileType content = (None, Some e))) ∧
  ∀ e, (newConfigParserFromBytes lib fileType content = (None, Some e)) ↔
       (((fileType ∉ supported) ∧ e = UnsupportedFileType fileType) ∨
        (∃ msg, e = DecodeError msg ∧
           ((fileType = "ini" ∧ ini_Load lib content = inr msg) ∨
            (fileType = "json" ∧ json_Unmarshal lib content = inr msg) ∨
            (fileType = "yaml" ∧ yaml_Unmarshal lib content = inr msg)))).
Proof.
  split; [apply newConfigParserFromBytes_one_of_two|].
  intros e. rewrite supported_cases. unfold newConfigParserFromBytes.
  repeat case_decide; subst.
  - split; [done|]. intros [[Hno _]|(msg & _ & [[? _]|[[? _]|[? _]]])];
      [destruct Hno; auto|done..].
  - destruct (ini_Load lib content) as [f|msg] eqn:Hload.
    + split; [done|]. intros [[Hno _]|(msg & _ & [[_ ?]|[[? _]|[? _]]])];
        [destruct Hno; auto|done..].
    + split.
      * intros [= <-]. right. exists msg. auto.
      * intros [[Hno _]|(msg' & -> & [[_ ?]|[[? _]|[? _]]])];
          [destruct Hno; auto|congruence|done..].
  - destruct (json_Unmarshal lib content) as [j|msg] eqn:Hload.
    + split; [done|]. intros [[Hno _]|(msg & _ & [[? _]|[[_ ?]|[? _]]])];
        [destruct Hno; auto|done..].
    + split.
      * intros [= <-]. right. exists msg. auto.
      * intros [[Hno _]|(msg' & -> & [[? _]|[[_ ?]|[? _]]])];
          [destruct Hno; auto|done|congruence|done].
  - destruct (yaml_Unmarshal lib content) as [y|msg] eqn:Hload.
    + split; [done|]. intros [[Hno _]|(msg & _ & [[? _]|[[? _]|[_ ?]]])];
        [destruct Hno; auto|done..].
    + split.
      * intros [= <-]. right. exists msg. auto.
      * intros [[Hno _]|(msg' & -> & [[? _]|[[? _]|[_ ?]]])];
          [destruct Hno; auto|done|done|congruence].
  - split.
    + intros [= <-]. left. split; [tauto|done].
    + intros [[_ ->]|(msg & _ & [[? _]|[[? _]|[? _]]])]; done.
Qed.

(** X2.  A constructed object carries the tag it was built with and the
    payload of that tag alone: the lines' map for "conf", the table of
    [ini.Load] for "ini", the tree of the decoder for "json" and "yaml";
    the other fields are empty. *)
Theorem constructed_object_holds_one_payload (lib : Decoders)
    (tag content : string) (c : ConfigParserObj) :
  newConfigParserFromBytes lib tag content = (Some c, None) →
  fileType c = tag ∧
  ((tag = "conf" ∧ raw c = foldl conf_line ∅ (Split content (byte 10)) ∧
    data c = ∅ ∧ iniFile c = None) ∨
   (tag = "ini" ∧
    (∃ f, ini_Load lib content = inl f ∧ iniFile c = Some f) ∧
    data c = ∅ ∧ raw c = ∅) ∨
   (tag = "json" ∧ json_Unmarshal lib content = inl (data c) ∧
    raw c = ∅ ∧ iniFile c = None) ∨
   (tag = "yaml" ∧ yaml_Unmarshal lib content = inl (data c) ∧
    raw c = ∅ ∧ iniFile c = None)).
Proof.
  unfold newConfigParserFromBytes. repeat case_decide; subst.
  - intros [= <-]. split; [done|]. left. done.
  - destruct (ini_Load lib content) as [f|]; [|done]. intros [= <-].
    split; [done|]. right. left. cbn. repeat split; try done. by exists f.
  - destruct (json_Unmarshal lib content) as [j|]; [|done]. intros [= <-].
    split; [done|]. right. right. left. done.
  - destruct (yaml_Unmarshal lib content) as [y|]; [|done]. intros [= <-].
    split; [done|]. right. right. right. done.
  - done.
Qed.

Lemma constructed_object_holds_one_payload_witness :
  let tree : gmap string value := {[ "plain" := VString "top" ]} in
  let c := {| data := tree; raw := ∅; fileType := "json"; iniFile := None |} in
  fileType c = "json" ∧
  ((("json" : string) = "conf" ∧ raw c = foldl conf_line ∅ (Split "{}" (byte 10)) ∧
    data c = ∅ ∧ iniFile c = None) ∨
   (("json" : string) = "ini" ∧
    (∃ f, inl ∅ = (inl f : ini.File + string) ∧ iniFile c = Some f) ∧
    data c = ∅ ∧ raw c = ∅) ∨
   (("json" : string) = "json" ∧ inl tree = (inl (data c) : _ + string) ∧
    raw c = ∅ ∧ iniFile c = None) ∨
   (("json" : string) = "yaml" ∧ inl ∅ = (inl (data c) : _ + string) ∧
    raw c = ∅ ∧ iniFile c = None)).
Proof.
  intros tree c.
  exact (constructed_object_holds_one_payload (fixed_decoders ∅ tree ∅)
           "json" "{}" c eq_refl).
Defined.

(** ** [ConfigParser] *)

(** X3.  [ConfigParser] never dereferences a nil parser.  An error of the
    read is returned as it is, whatever the tag, an unsupported one too: the
    file is read before the tag is looked at.  With any error comes the
    zero object; and there is no error exactly when the file is read and
    [newConfigParserFromBytes] accepts its bytes, the object being the one
    it built. *)
Theorem ConfigParser_outcomes (lib : Decoders) (readFile : FileReaderFunc)
    (filepath fileType : string) :
  (∃ c err, ConfigParser lib readFile filepath fileType = Some (c, err)) ∧
  (∀ msg, readFile filepath = inr msg →
     ConfigParser lib readFile filepath fileType
     = Some (zero_ConfigParserObj, Some (ReadFileError msg))) ∧
  (∀ c err, ConfigParser lib readFile filepath fileType = Some (c, Some err) →
     c = zero_ConfigParserObj) ∧
  (∀ c, ConfigParser lib readFile filepath fileType = Some (c, None) ↔
     ∃ content, readFile filepath = inl content ∧
       newConfigParserFromBytes lib fileType content = (Some c, None)).
Proof.
  unfold ConfigParser. destruct (readFile filepath) as [content|msg].
  - destruct (newConfigParserFromBytes_one_of_two lib fileType content)
      as [[c Hc]|[e He]].
    + rewrite Hc. split; [eauto|]. split; [done|]. split; [done|].
      intros c'. split.
      * intros [= <-]. eauto.
      * intros (? & [= <-] & Hc'). congruence.
    + rewrite He. split; [eauto|]. split; [done|].
      split; [by intros ?? [= <- _]|].
      intros c'. split; [done|]. intros (? & [= <-] & Hc'). congruence.
  - split; [eauto|]. split; [by intros ? [= <-]|].
    split; [by intros ?? [= <- _]|].
    intros c. split; [done|]. by intros (? & ? & _).
Qed.

Lemma ConfigParser_outcomes_witness :
  let readFile : FileReaderFunc := λ _, inr "mock read error" in
  ConfigParser (fixed_decoders ∅ ∅ ∅) readFile "dummy.conf" "toml"
  = Some (zero_ConfigParserObj, Some (ReadFileError "mock read error")).
Proof.
  intros readFile.
  exact (proj1 (proj2 (ConfigParser_outcomes (fixed_decoders ∅ ∅ ∅) readFile
                         "dummy.conf" "toml")) "mock read error" eq_refl).
Defined.

Lemma Get_unsupported (c : ConfigParserObj) (key : string) :
  fileType c ∉ supported →
  Get c key = (Returns "" (Some (UnsupportedFileType (fileType c))), c).
Proof.
  rewrite supported_cases. intros Hno. unfold Get.
  destruct (decide (fileType c = "conf")); [tauto|].
  destruct (decide (fileType c = "ini")); [tauto|].
  rewrite !bool_decide_eq_false_2 by tauto. done.
Qed.

(** X4.  The object that [ConfigParser] returns with an error answers no
    look-up: every [Get] on it returns the empty string and the
    unsupported-file-type error for the empty tag, and leaves it as it
    is. *)
Theorem Get_after_failed_ConfigParser (lib : Decoders)
    (readFile : FileReaderFunc) (filepath fileType : string)
    (c : ConfigParserObj) (err : ConfigParser_error) (key : string) :
  ConfigParser lib readFile filepath fileType = Some (c, Some err) →
  Get c key = (Returns "" (Some (UnsupportedFileType "")), c).
Proof.
  intros Hfail.
  assert (c = zero_ConfigParserObj) as ->.
  { unfold ConfigParser in Hfail. destruct (readFile filepath) as [content|msg].
    - destruct (newConfigParserFromBytes lib fileType content) as [[p|] [e|]];
        by simplify_eq.
    - by simplify_eq. }
  apply (Get_unsupported zero_ConfigParserObj).
  rewrite supported_cases. cbn. by intros [?|[?|[?|?]]].
Qed.

Lemma Get_after_failed_ConfigParser_witness :
  let readFile : FileReaderFunc := λ _, inl "{invalid json" in
  let lib := {| ini_Load := λ _, inl ∅;
                json_Unmarshal := λ _, inr "invalid character";
                yaml_Unmarshal := λ _, inl ∅ |} in
  Get zero_ConfigParserObj "key1"
  = (Returns "" (Some (UnsupportedFileType "")), zero_ConfigParserObj).
Proof.
  intros readFile lib.
  exact (Get_after_failed_ConfigParser lib readFile "config.json" "json"
           zero_ConfigParserObj (FromBytesError (DecodeError "invalid character"))
           "key1" eq_refl).
Defined.

(** ** The errors of [Get] *)

(** X5.  An error of [Get] tells what was asked.  For a tag that is none of
    the four it is the unsupported-file-type error of that tag; for "conf",
    "json" and "yaml", and for "ini" with a key without a dot, it is the
    key-not-found error of the key as given; for "ini" with a key with a dot
    it names the rest after the first dot, and the section before it.
    [Get] never makes up another error. *)
Theorem Get_error_names_what_was_asked (c : ConfigParserObj)
    (key val : string) (e : error) :
  (Get c key).1 = Returns val (Some e) →
  ((fileType c ∉ supported) ∧ e = UnsupportedFileType (fileType c)) ∨
  (fileType c ∈ supported ∧ (fileType c = "ini" → free_of "." key) ∧
   e = KeyNotFound key) ∨
  (fileType c = "ini" ∧
   ∃ section rest, key = section +:+ String "." rest ∧ free_of "." section ∧
                   e = KeyNotFoundInSection rest section).
Proof.
  intros Herr. destruct (decide (fileType c ∈ supported)) as [Hin|Hno].
  2:{ left. split; [done|]. rewrite Get_unsupported in Herr by done.
      by injection Herr as _ <-. }
  right. apply supported_cases in Hin as Hcases.
  destruct (decide (fileType c = "ini")) as [Hini|Hother].
  - destruct (iniFile c) as [f|] eqn:Hf.
    2:{ unfold Get in Herr. rewrite Hini, Hf in Herr. done. }
    destruct (Contains key ".") eqn:Hdot.
    + right. split; [done|].
      apply Contains_cut in Hdot as (section & rest & -> & Hfree).
      destruct (Get_ini_dotted c f section rest) as (? & _ & HGet); [done..|].
      rewrite HGet in Herr. apply ini_result_error in Herr as [_ ->].
      by exists section, rest.
    + left. destruct (Get_ini_plain c f key) as (? & _ & HGet); [done..|].
      rewrite HGet in Herr. by apply ini_result_error in Herr as [_ ->].
  - left. split; [done|]. split; [done|].
    destruct Hcases as [Hc|[?|Hc]]; [|done|].
    + rewrite Get_conf in Herr by done.
      destruct (raw c !! key); by simplify_eq/=.
    + rewrite Get_nested in Herr by done.
      destruct (getNestedValue _ _) as [? []]; by simplify_eq/=.
Qed.

Lemma Get_error_names_what_was_asked_witness :
  let c := {| data := {[ "plain" := VString "top" ]}; raw := ∅;
              fileType := "yaml"; iniFile := None |} in
  ((fileType c ∉ supported) ∧
   KeyNotFound "plain.x" = UnsupportedFileType (fileType c)) ∨
  (fileType c ∈ supported ∧ (fileType c = "ini" → free_of "." "plain.x") ∧
   KeyNotFound "plain.x" = KeyNotFound "plain.x") ∨
  (fileType c = "ini" ∧
   ∃ section rest, "plain.x" = section +:+ String "." rest ∧
                   free_of "." section ∧
                   KeyNotFound "plain.x" = KeyNotFoundInSection rest section).
Proof.
  intros c.
  exact (Get_error_names_what_was_asked c "plain.x" "" (KeyNotFound "plain.x")
           eq_refl).
Defined.

(** ** [Get] on a constructed object *)







(** ** Composing paths *)

Lemma Join_app (l1 l2 : list string) (sep : ascii) :
  l1 ≠ [] → l2 ≠ [] →
  Join (l1 ++ l2)%list sep = Join l1 sep +:+ String sep (Join l2 sep).
Proof.
  intros Hl1 Hl2. induction l1 as [|e l1 IH]; [done|].
  destruct l1 as [|e2 l1].
  - destruct l2 as [|e' l2]; [done|]. reflexivity.
  - change ((e :: e2 :: l1) ++ l2)%list with (e :: e2 :: (l1 ++ l2))%list.
    rewrite !Join_cons.
    change (e2 :: (l1 ++ l2))%list with ((e2 :: l1) ++ l2)%list.
    rewrite IH by done. by rewrite app_assoc.
Qed.

(** The parts of [k1 sep k2] are the parts of [k1], then those of [k2]. *)
Lemma Split_app (k1 k2 : string) (sep : ascii) :
  Split (k1 +:+ String sep k2) sep = (Split k1 sep ++ Split k2 sep)%list.
Proof.
  destruct (Split_spec k1 sep) as (Hne1 & Hfree1 & Hjoin1).
  destruct (Split_spec k2 sep) as (Hne2 & Hfree2 & Hjoin2).
  rewrite <-Hjoin1 at 1. rewrite <-Hjoin2 at 1.
  rewrite <-Join_app by done. apply Split_Join.
  - by destruct (Split k1 sep).
  - by apply Forall_app.
Qed.

Lemma getNestedValue_loop_not_found (v x : value) (parts : list string) :
  getNestedValue_loop v parts = (x, false) → x = VNil.
Proof.
  revert v. induction parts as [|part parts IH]; intros v; cbn; [done|].
  destruct v as [| | | | |m|]; try by intros [= <-].
  destruct (m !! part) as [next|]; [apply IH|by intros [= <-]].
Qed.

Lemma getNestedValue_loop_app (v : value) (parts1 parts2 : list string) :
  getNestedValue_loop v (parts1 ++ parts2)%list
  = match getNestedValue_loop v parts1 with
    | (v', true) => getNestedValue_loop v' parts2
    | (_, false) => (VNil, false)
    end.
Proof.
  revert v. induction parts1 as [|part parts1 IH]; intros v; cbn; [done|].
  destruct v as [| | | | |m|]; try done.
  destruct (m !! part) as [next|]; [apply IH|done].
Qed.

(** X8.  [getNestedValue] composes along a dot: the look-up of [k1.k2] is
    the look-up of [k2] in the mapping that [k1] leads to, and it fails
    where [k1] is not found or leads to anything but a mapping. *)
Theorem getNestedValue_composes (data : gmap string value) (k1 k2 : string) :
  getNestedValue data (k1 +:+ String "." k2)
  = match getNestedValue data k1 with
    | (VMap m, true) => getNestedValue m k2
    | _ => (VNil, false)
    end.
Proof.
  unfold getNestedValue. rewrite Split_app, getNestedValue_loop_app.
  destruct (getNestedValue_loop (VMap data) (Split k1 ".")) as [v' []] eqn:Hk1.
  - destruct (Split_spec k2 ".") as (Hne & _ & _).
    destruct (Split k2 ".") as [|part parts]; [done|].
    by destruct v'.
  - apply getNestedValue_loop_not_found in Hk1 as ->. done.
Qed.

(** X9.  For "json" and "yaml", where a key with a dot is found, the part
    before the dot is found too and is a mapping, and the part after the
    dot is found in that mapping with the same result: no key is found
    below a key that is missing or that holds a scalar. *)
Theorem Get_found_below_a_mapping_only (c : ConfigParserObj)
    (k1 k2 val : string) :
  fileType c = "json" ∨ fileType c = "yaml" →
  (Get c (k1 +:+ String "." k2)).1 = Returns val None →
  ∃ m, (Get c k1).1 = Returns (fmt.Sprintf_v (VMap m)) None ∧
       (Get (with_data c m) k2).1 = Returns val None.
Proof.
  intros Hc. rewrite !Get_nested by done. cbn [fst].
  rewrite getNestedValue_composes.
  destruct (getNestedValue (data c) k1) as [v' found].
  destruct v' as [| | | | |m|], found; try done.
  intros Hk2. exists m. split; [done|].
  rewrite (Get_nested (with_data c m)) by done. cbn [fst data with_data].
  by destruct (getNestedValue m k2) as [v2 []].
Qed.

Lemma Get_found_below_a_mapping_only_witness :
  let inner : gmap string value := {[ "foo" := VString "bar" ]} in
  let c := {| data := {[ "section1" := VMap inner ]}; raw := ∅;
              fileType := "json"; iniFile := None |} in
  ∃ m, (Get c "section1").1 = Returns (fmt.Sprintf_v (VMap m)) None ∧
       (Get (with_data c m) "foo").1 = Returns "bar" None.
Proof.
  intros inner c.
  exact (Get_found_below_a_mapping_only c "section1" "foo" "bar"
           (or_introl eq_refl) eq_refl).
Defined.

(** ** What no key reaches *)

(** X10.  For "json" and "yaml", an entry of the document whose name holds
    a dot is out of reach: [Get] answers every key as it would without the
    entry, the key that is the entry's name included. *)
Theorem Get_never_reaches_a_dotted_name (c : ConfigParserObj)
    (name key : string) :
  fileType c = "json" ∨ fileType c = "yaml" →
  Contains name "." = true →
  (Get (with_data c (delete name (data c))) key).1 = (Get c key).1.
Proof.
  intros Hc Hname. rewrite Get_nested, (Get_nested c) by done. cbn [fst].
  assert (getNestedValue (data (with_data c (delete name (data c)))) key
          = getNestedValue (data c) key) as ->; [|done].
  unfold getNestedValue. cbn [data with_data].
  destruct (Split_spec key ".") as (Hne & Hfree & _).
  destruct (Split key ".") as [|part parts]; [done|].
  apply Forall_cons in Hfree as [Hpart _]. cbn [getNestedValue_loop].
  rewrite lookup_delete_ne; [done|]. intros ->.
  unfold free_of in Hpart. congruence.
Qed.

Lemma Get_never_reaches_a_dotted_name_witness :
  let c := {| data := {[ "a.b" := VString "x" ]}; raw := ∅;
              fileType := "json"; iniFile := None |} in
  (Get c "a.b").1 = Returns "" (Some (KeyNotFound "a.b")).
Proof.
  intros c.
  rewrite <-(Get_never_reaches_a_dotted_name c "a.b" "a.b"
               (or_introl eq_refl) eq_refl).
  reflexivity.
Defined.

Lemma looked_up_delete (f : ini.File) (sname sec name : string) :
  sec ≠ sname → looked_up (delete sname f) sec name = looked_up f sec name.
Proof.
  intros Hne. unfold looked_up, stored. by rewrite lookup_delete_ne.
Qed.

Lemma sectionName_free (section : string) :
  free_of "." section → free_of "." (ini.sectionName section).
Proof. intros Hfree. unfold ini.sectionName. by case_decide. Qed.

(** X11.  For "ini", a section whose name holds a dot is out of reach: the
    section [Get] asks for is the default one or the part of the key before
    its first dot, so [Get] answers every key as it would without that
    section. *)
Theorem Get_never_reaches_a_dotted_section (c : ConfigParserObj)
    (f : ini.File) (sname key : string) :
  fileType c = "ini" → iniFile c = Some f →
  Contains sname "." = true →
  (Get (with_iniFile c (delete sname f)) key).1 = (Get c key).1.
Proof.
  intros Hc Hf Hsname.
  assert (∀ sec, free_of "." sec → sec ≠ sname) as Hother.
  { intros sec Hfree ->. unfold free_of in Hfree. congruence. }
  destruct (Contains key ".") eqn:Hdot.
  - apply Contains_cut in Hdot as (section & rest & -> & Hfree).
    destruct (Get_ini_dotted c f section rest) as (? & _ & ->); [done..|].
    destruct (Get_ini_dotted (with_iniFile c (delete sname f))
                (delete sname f) section rest) as (? & _ & ->); [done..|].
    cbn [fst]. rewrite looked_up_delete; [done|].
    by apply Hother, sectionName_free.
  - destruct (Get_ini_plain c f key) as (? & _ & ->); [done..|].
    destruct (Get_ini_plain (with_iniFile c (delete sname f))
                (delete sname f) key) as (? & _ & ->); [done..|].
    cbn [fst]. rewrite looked_up_delete; [done|]. by apply Hother.
Qed.

Lemma Get_never_reaches_a_dotted_section_witness :
  let f : ini.File := {[ "DEFAULT" := ∅; "a.b" := {[ "c" := "x" ]} ]} in
  let c := {| data := ∅; raw := ∅; fileType := "ini"; iniFile := Some f |} in
  (Get c "a.b.c").1 = Returns "" (Some (KeyNotFoundInSection "b.c" "a")).
Proof.
  intros f c.
  rewrite <-(Get_never_reaches_a_dotted_section c f "a.b" "a.b.c"
               eq_refl eq_refl eq_refl).
  reflexivity.
Defined.

(** ** What a "conf" document holds *)

(** A line defines one key and one value at most. *)
Lemma line_defines_functional (line key1 val1 key2 val2 : string) :
  line_defines line key1 val1 → line_defines line key2 val2 →
  key1 = key2 ∧ val1 = val2.
Proof.
  intros (b1 & a1 & Ht1 & Hf1 & _ & -> & ->) (b2 & a2 & Ht2 & Hf2 & _ & -> & ->).
  assert (cutAtIndex (TrimSpace line) "=" = Some (b1, a1)) as H1
    by by apply cutAtIndex_Some.
  assert (cutAtIndex (TrimSpace line) "=" = Some (b2, a2)) as H2
    by by apply cutAtIndex_Some.
  rewrite H1 in H2. by injection H2 as -> ->.
Qed.

Lemma line_ignored_defines_nothing (line key val : string) :
  line_ignored line → ¬ line_defines line key val.
Proof.
  intros Hign (before & after & Ht & _ & Hmark & _).
  destruct Hign as [Hblank|[Hcomment|Hfree]].
  - rewrite Hblank in Ht. destruct before; discriminate Ht.
  - congruence.
  - unfold free_of in Hfree.
    rewrite <-Contains_TrimSpace_equals, Ht, Contains_cut_true in Hfree. done.
Qed.

(** What the lines leave under a key is what the map held before them, if
    no line defines the key, or what the last line that defines it says. *)
Lemma conf_lines_lookup_inv (raw : gmap string string) (lines : list string)
    (key val : string) :
  foldl conf_line raw lines !! key = Some val →
  (raw !! key = Some val ∧
   Forall (λ line, ∀ val', ¬ line_defines line key val') lines) ∨
  ∃ pre line post,
    lines = (pre ++ line :: post)%list ∧ line_defines line key val ∧
    Forall (λ later, ∀ val', ¬ line_defines later key val') post.
Proof.
  induction lines as [|line lines IH] using rev_ind; [by left|].
  rewrite foldl_app. cbn [foldl].
  destruct (conf_line_cases line) as [Hign|(key' & val' & Hdef)].
  - rewrite conf_line_ignored by done. intros Hkey.
    assert (∀ v, ¬ line_defines line key v) as Hnot
      by (intros v; by apply line_ignored_defines_nothing).
    destruct (IH Hkey) as [[Hraw Hall]|(pre & l & post & -> & Hl & Hpost)].
    + left. split; [done|]. apply Forall_app. by split; [|constructor].
    + right. exists pre, l, (post ++ [line])%list.
      split; [by rewrite <-List.app_assoc|]. split; [done|].
      apply Forall_app. by split; [|constructor].
  - rewrite (conf_line_defines _ _ _ _ Hdef).
    destruct (decide (key' = key)) as [->|Hne].
    + rewrite lookup_insert_eq. intros [= ->]. right.
      exists lines, line, []. by split; [|split; [|constructor]].
    + rewrite lookup_insert_ne by done. intros Hkey.
      assert (∀ v, ¬ line_defines line key v) as Hnot.
      { intros v Hv. by destruct (line_defines_functional _ _ _ _ _ Hdef Hv). }
      destruct (IH Hkey) as [[Hraw Hall]|(pre & l & post & -> & Hl & Hpost)].
      * left. split; [done|]. apply Forall_app. by split; [|constructor].
      * right. exists pre, l, (post ++ [line])%list.
        split; [by rewrite <-List.app_assoc|]. split; [done|].
        apply Forall_app. by split; [|constructor].
Qed.

(** X12.  For "conf", [Get] finds a key exactly when some line of the
    document defines it, and the value it returns is the one of the last
    such line: nothing is found that no line says, and no line that
    defines a key is lost but to a later line with the same key. *)
Theorem Get_conf_found_iff_defined (lib : Decoders) (content : string)
    (c : ConfigParserObj) (key val : string) :
  newConfigParserFromBytes lib "conf" content = (Some c, None) →
  (Get c key).1 = Returns val None ↔
  ∃ pre line post,
    Split content (byte 10) = (pre ++ line :: post)%list ∧
    line_defines line key val ∧
    Forall (λ later, ∀ val', ¬ line_defines later key val') post.
Proof.
  rewrite newConfigParserFromBytes_conf. intros [= <-].
  rewrite Get_conf by done. cbn [fst raw]. split.
  - destruct (foldl conf_line ∅ (Split content (byte 10)) !! key)
      as [v|] eqn:Hkey; [|done].
    intros [= ->].
    by destruct (conf_lines_lookup_inv _ _ _ _ Hkey) as [[? _]|?].
  - intros (pre & line & post & -> & Hdef & Hpost).
    by rewrite (conf_lines_last_wins _ _ _ _ _ _ Hdef Hpost).
Qed.

Lemma Get_conf_found_iff_defined_witness :
  let content := "key1=value1" +:+ String (byte 10) "key2 = value2" in
  let c := {| data := ∅; raw := foldl conf_line ∅ (Split content (byte 10));
              fileType := "conf"; iniFile := None |} in
  ∃ pre line post,
    Split content (byte 10) = (pre ++ line :: post)%list ∧
    line_defines line "key2" "value2" ∧
    Forall (λ later, ∀ val', ¬ line_defines later "key2" val') post.
Proof.
  intros content c.
  exact (proj1 (Get_conf_found_iff_defined (fixed_decoders ∅ ∅ ∅) content c
                  "key2" "value2" eq_refl) eq_refl).
Defined.

(** ** Trimmed strings *)

Lemma dropSpaces_length p2 p3 (s : string) :
  (String.length (dropSpaces p2 p3 s) ≤ String.length s)%nat.
Proof.
  destruct (dropSpaces_spec p2 p3 s) as (l & Hl & _).
  rewrite Hl at 2. rewrite length_app. lia.
Qed.

(** Where [dropSpaces] drops nothing, the string does not begin with a
    space. *)
Lemma dropSpaces_fixed p2 p3 (s : string) :
  dropSpaces p2 p3 s = s ↔
  match s with
  | String c1 s1 =>
      asciiSpace c1 = false ∧
      match s1 with
      | String c2 s2 =>
          p2 c1 c2 = false ∧
          match s2 with
          | String c3 _ => p3 c1 c2 c3 = false
          | "" => True
          end
      | "" => True
      end
  | "" => True
  end.
Proof.
  destruct s as [|c1 s1]; [done|]. cbn [dropSpaces].
  destruct (asciiSpace c1).
  { split; [|by intros [? _]]. intros Heq.
    pose proof (dropSpaces_length p2 p3 s1) as Hlen.
    rewrite Heq in Hlen. simpl in Hlen. lia. }
  destruct s1 as [|c2 s2]; [done|].
  destruct (p2 c1 c2).
  { split; [|by intros [_ [? _]]]. intros Heq.
    pose proof (dropSpaces_length p2 p3 s2) as Hlen.
    rewrite Heq in Hlen. simpl in Hlen. lia. }
  destruct s2 as [|c3 s3]; [done|].
  destruct (p3 c1 c2 c3); [|done].
  split; [|by intros [_ [_ ?]]]. intros Heq.
  pose proof (dropSpaces_length p2 p3 s3) as Hlen.
  rewrite Heq in Hlen. simpl in Hlen. lia.
Qed.

Lemma dropSpaces_idemp p2 p3 (s : string) :
  dropSpaces p2 p3 (dropSpaces p2 p3 s) = dropSpaces p2 p3 s.
Proof.
  remember (String.length s) as n eqn:Hn.
  revert s Hn. induction (lt_wf n) as [n _ IH]; intros s ->.
  destruct s as [|c1 s1]; [done|].
  cbn [dropSpaces]. destruct (asciiSpace c1) eqn:H1.
  { apply (IH (String.length s1)); [simpl; lia|done]. }
  destruct s1 as [|c2 s2].
  { apply dropSpaces_fixed. done. }
  destruct (p2 c1 c2) eqn:H2.
  { apply (IH (String.length s2)); [simpl; lia|done]. }
  destruct s2 as [|c3 s3].
  { apply dropSpaces_fixed. done. }
  destruct (p3 c1 c2 c3) eqn:H3.
  { apply (IH (String.length s3)); [simpl; lia|done]. }
  apply dropSpaces_fixed. done.
Qed.

(** A string that does not begin with a space has no prefix that does. *)
Lemma dropSpaces_fixed_prefix p2 p3 (u x : string) :
  dropSpaces p2 p3 (u +:+ x) = u +:+ x → dropSpaces p2 p3 u = u.
Proof.
  rewrite !dropSpaces_fixed.
  destruct u as [|c1 [|c2 [|c3 u]]]; rewrite ?app_cons, ?app_nil_l; try done.
  - by intros [? _].
  - by intros (? & ? & _).
Qed.

(** [trimRightSpace] keeps a prefix. *)
Lemma trimRightSpace_prefix (s : string) :
  ∃ r, s = trimRightSpace s +:+ r ∧ whitespace r.
Proof.
  unfold trimRightSpace.
  destruct (dropSpaces_spec (λ c2 c1, space2 c1 c2)
              (λ c3 c2 c1, space3 c1 c2 c3) (String.rev s)) as (r & Hr & Hrun).
  exists (String.rev r). split; [|by apply space_run_rev].
  by rewrite <-rev_app_distr, <-Hr, rev_involutive.
Qed.

Lemma trimRightSpace_idemp (s : string) :
  trimRightSpace (trimRightSpace s) = trimRightSpace s.
Proof. unfold trimRightSpace. by rewrite rev_involutive, dropSpaces_idemp. Qed.

(** What [TrimSpace] gives does not begin with a space. *)
Lemma trimLeftSpace_TrimSpace (s : string) :
  trimLeftSpace (TrimSpace s) = TrimSpace s.
Proof.
  unfold TrimSpace.
  destruct (trimRightSpace_prefix (trimLeftSpace s)) as (r & Hr & _).
  apply (dropSpaces_fixed_prefix _ _ _ r). rewrite <-Hr.
  apply dropSpaces_idemp.
Qed.

(** Trimming twice is trimming once. *)
Lemma TrimSpace_idemp (s : string) : TrimSpace (TrimSpace s) = TrimSpace s.
Proof.
  unfold TrimSpace at 1. rewrite trimLeftSpace_TrimSpace.
  unfold TrimSpace. apply trimRightSpace_idemp.
Qed.

(** A trimmed string begins and ends with no space. *)
Lemma TrimSpace_fixed (s : string) :
  TrimSpace s = s → trimLeftSpace s = s ∧ trimRightSpace s = s.
Proof.
  intros Hs. assert (trimLeftSpace s = s) as Hl.
  { rewrite <-Hs at 1. by rewrite trimLeftSpace_TrimSpace. }
  split; [done|]. unfold TrimSpace in Hs. by rewrite Hl in Hs.
Qed.

(** Trimming removes bytes and adds none. *)
Lemma TrimSpace_free (s : string) (c : ascii) :
  free_of c s → free_of c (TrimSpace s).
Proof.
  unfold free_of. destruct (TrimSpace_spec s) as (l & r & Hs & _ & _).
  rewrite Hs at 1. rewrite !Contains_app.
  by intros [_ [? _]%orb_false_iff]%orb_false_iff.
Qed.

(** What a line defines is a clean entry. *)
Lemma line_defines_clean (line key val : string) :
  free_of (byte 10) line → line_defines line key val → clean_entry key val.
Proof.
  intros Hline (before & after & Ht & Hfree & Hmark & -> & ->).
  apply (TrimSpace_free _ (byte 10)) in Hline. unfold free_of in Hline.
  rewrite Ht, Contains_app in Hline.
  apply orb_false_iff in Hline as [Hbefore Hafter].
  cbn [Contains] in Hafter. case_decide; [done|].
  unfold clean_entry.
  split; [apply TrimSpace_idemp|]. split; [apply TrimSpace_idemp|].
  split; [by apply TrimSpace_free|]. split; [by apply TrimSpace_free|].
  split; [by apply TrimSpace_free|].
  destruct (HasPrefix (TrimSpace before) "#") eqn:Hkey; [|done].
  apply HasPrefix_byte in Hkey as [rest Hrest].
  assert (trimLeftSpace before = before) as Hleft.
  { apply (dropSpaces_fixed_prefix _ _ _ (String "=" after)).
    rewrite <-Ht. apply trimLeftSpace_TrimSpace. }
  destruct (trimRightSpace_prefix before) as (r & Hr & _).
  unfold TrimSpace in Hrest. rewrite Hleft in Hrest.
  rewrite Hrest, app_cons in Hr. rewrite Hr, app_cons in Ht.
  assert (HasPrefix (TrimSpace line) "#" = true) as Htrue
    by (apply HasPrefix_byte; eauto).
  congruence.
Qed.

(** X13.  For "conf", what [Get] finds is clean: a key that is found and
    the value returned for it are trimmed and hold no line break, and the
    key holds no [=] and does not begin with [#].  A key that is not of
    this kind is never found. *)
Theorem Get_conf_finds_clean_entries_only (lib : Decoders) (content : string)
    (c : ConfigParserObj) (key val : string) :
  newConfigParserFromBytes lib "conf" content = (Some c, None) →
  (Get c key).1 = Returns val None →
  clean_entry key val.
Proof.
  rewrite newConfigParserFromBytes_conf. intros [= <-].
  rewrite Get_conf by done. cbn [fst raw].
  destruct (foldl conf_line ∅ (Split content (byte 10)) !! key)
    as [v|] eqn:Hkey; [|done].
  intros [= ->].
  destruct (conf_lines_lookup_inv _ _ _ _ Hkey)
    as [[? _]|(pre & line & post & Hlines & Hdef & _)]; [done|].
  apply (line_defines_clean line); [|done].
  destruct (Split_spec content (byte 10)) as (_ & Hfree & _).
  rewrite Hlines in Hfree. apply Forall_app in Hfree as [_ Hfree].
  by apply Forall_cons in Hfree as [? _].
Qed.

Lemma Get_conf_finds_clean_entries_only_witness :
  let content := "  key4 = rAR#vW@='4EV  " in
  let c := {| data := ∅; raw := foldl conf_line ∅ (Split content (byte 10));
              fileType := "conf"; iniFile := None |} in
  clean_entry "key4" "rAR#vW@='4EV".
Proof.
  intros content c.
  exact (Get_conf_finds_clean_entries_only (fixed_decoders ∅ ∅ ∅) content c
           "key4" "rAR#vW@='4EV" eq_refl eq_refl).
Defined.

(** ** Writing a flat map out and reading it back *)

(** Where a string does not begin with a space, and [sep] is part of no
    space, the string followed by [sep] and more does not begin with one
    either. *)
Lemma dropSpaces_fixed_app p2 p3 (sep : ascii) (k v : string) :
  asciiSpace sep = false →
  (∀ a, p2 sep a = false ∧ p2 a sep = false) →
  (∀ a b, p3 sep a b = false ∧ p3 a sep b = false ∧ p3 a b sep = false) →
  dropSpaces p2 p3 k = k →
  dropSpaces p2 p3 (k +:+ String sep v) = k +:+ String sep v.
Proof.
  intros Hsep Hp2 Hp3. rewrite !dropSpaces_fixed.
  destruct k as [|c1 [|c2 [|c3 k]]]; rewrite ?app_cons, ?app_nil_l.
  - intros _. split; [done|]. destruct v as [|c2 [|c3 v]]; [done|..].
    + split; [apply Hp2|done].
    + split; [apply Hp2|apply Hp3].
  - intros [H1 _]. split; [done|]. split; [apply Hp2|].
    destruct v; [done|apply Hp3].
  - intros (H1 & H2 & _). split; [done|]. split; [done|apply Hp3].
  - done.
Qed.

Lemma space2_equals (a : ascii) : space2 "=" a = false ∧ space2 a "=" = false.
Proof. split; [done|]. unfold space2. apply andb_false_r. Qed.

Lemma space3_equals (a b : ascii) :
  space3 "=" a b = false ∧ space3 a "=" b = false ∧ space3 a b "=" = false.
Proof.
  unfold space3.
  repeat split; rewrite !orb_false_iff, !bool_decide_eq_false;
    change (nat_of_ascii "=") with 61%nat; lia.
Qed.

(** A trimmed key, [=], a trimmed value: a trimmed line. *)
Lemma TrimSpace_entry_line (key val : string) :
  TrimSpace key = key → TrimSpace val = val →
  TrimSpace (key +:+ String "=" val) = key +:+ String "=" val.
Proof.
  intros [Hkey _]%TrimSpace_fixed [_ Hval]%TrimSpace_fixed.
  unfold TrimSpace.
  assert (trimLeftSpace (key +:+ String "=" val) = key +:+ String "=" val) as ->.
  { apply dropSpaces_fixed_app; [done|apply space2_equals|apply space3_equals|done]. }
  unfold trimRightSpace in *.
  assert (String.rev (key +:+ String "=" val)
          = String.rev val +:+ String "=" (String.rev key)) as ->.
  { by rewrite rev_app_distr, rev_cons, app_assoc. }
  apply (f_equal String.rev) in Hval. rewrite rev_involutive in Hval.
  rewrite dropSpaces_fixed_app; [|done| | |done].
  - by rewrite rev_app_distr, rev_cons, !rev_involutive, app_assoc.
  - intros a. split; apply space2_equals.
  - intros a b. repeat split; apply space3_equals.
Qed.

(** A clean entry, written [key=value], is a line that defines it. *)
Lemma clean_entry_defines (key val : string) :
  clean_entry key val → line_defines (key +:+ String "=" val) key val.
Proof.
  intros (Hkey & Hval & Hfree & _ & _ & Hmark).
  exists key, val. rewrite TrimSpace_entry_line by done.
  repeat split; try done.
  destruct key as [|c key]; [done|]. rewrite app_cons.
  destruct (HasPrefix (String c (key +:+ String "=" val)) "#") eqn:Hline; [|done].
  apply HasPrefix_byte in Hline as [rest [= -> _]].
  by rewrite (proj2 (HasPrefix_byte _ _)) in Hmark by eauto.
Qed.

Lemma clean_entry_one_line (key val : string) :
  clean_entry key val → free_of (byte 10) (key +:+ String "=" val).
Proof.
  intros (_ & _ & _ & Hkey & Hval & _). unfold free_of in *.
  rewrite Contains_app, Hkey. cbn [Contains orb]. by case_decide.
Qed.

(** Reading the lines of clean entries inserts the entries, in order. *)
Lemma conf_lines_of_entries (raw : gmap string string)
    (entries : list (string * string)) :
  Forall (λ kv, clean_entry kv.1 kv.2) entries →
  foldl conf_line raw
    (map (λ kv : string * string, kv.1 +:+ String "=" kv.2) entries)
  = foldl (λ m kv, <[kv.1 := kv.2]> m) raw entries.
Proof.
  revert raw. induction entries as [|[k v] entries IH]; intros raw Hclean;
    [done|].
  apply Forall_cons in Hclean as [Hkv Hclean]. cbn [map foldl].
  rewrite (conf_line_defines _ _ k v) by by apply clean_entry_defines.
  by apply IH.
Qed.

Lemma foldl_insert_list_to_map (entries : list (string * string)) :
  foldl (λ (m : gmap string string) kv, <[kv.1 := kv.2]> m) ∅ entries
  = list_to_map (reverse entries).
Proof.
  induction entries as [|[k v] entries IH] using rev_ind; [done|].
  by rewrite foldl_snoc, reverse_snoc, list_to_map_cons, IH.
Qed.

(** The document of a map of clean entries decodes to the map. *)
Lemma conf_document_decodes (m : gmap string string) :
  (∀ key val, m !! key = Some val → clean_entry key val) →
  foldl conf_line ∅ (Split (conf_document m) (byte 10)) = m.
Proof.
  intros Hclean. unfold conf_document.
  assert (Forall (λ kv, clean_entry kv.1 kv.2) (map_to_list m)) as Hall.
  { apply Forall_forall. intros [k v] Hkv%elem_of_map_to_list. by apply Hclean. }
  destruct (map_to_list m) as [|kv entries] eqn:Hlist.
  { apply map_to_list_empty_iff in Hlist as ->. reflexivity. }
  rewrite Split_Join.
  - rewrite conf_lines_of_entries by done.
    rewrite foldl_insert_list_to_map, <-Hlist.
    rewrite <-(list_to_map_to_list m) at 2. symmetry.
    apply list_to_map_proper; [apply NoDup_fst_map_to_list|].
    by rewrite reverse_Permutation.
  - done.
  - apply Forall_map. eapply Forall_impl; [exact Hall|].
    intros [k v] Hkv. by apply clean_entry_one_line.
Qed.

(** X14.  A flat map whose keys and values are clean, written out one
    [key=value] line per entry, is read back as it was: the object
    constructed from the document has the map for its flat map, so [Get]
    returns for each key the value the map holds. *)
Theorem conf_document_round_trip (lib : Decoders) (m : gmap string string) :
  (∀ key val, m !! key = Some val → clean_entry key val) →
  newConfigParserFromBytes lib "conf" (conf_document m)
  = (Some {| data := ∅; raw := m; fileType := "conf"; iniFile := None |}, None).
Proof.
  intros Hclean. rewrite newConfigParserFromBytes_conf.
  by rewrite conf_document_decodes.
Qed.

Lemma conf_document_round_trip_witness :
  let m : gmap string string :=
    {[ "key1" := "value1"; "key4" := "rAR#vW@='4EV"; "empty" := "" ]} in
  newConfigParserFromBytes (fixed_decoders ∅ ∅ ∅) "conf" (conf_document m)
  = (Some {| data := ∅; raw := m; fileType := "conf"; iniFile := None |}, None).
Proof.
  intros m. apply (conf_document_round_trip (fixed_decoders ∅ ∅ ∅) m).
  intros key val Hkey.
  assert ((key, val) ∈ map_to_list m) as Hin by by apply elem_of_map_to_list.
  vm_compute in Hin.
  repeat (apply elem_of_cons in Hin as [[= -> ->]|Hin];
          [repeat split; reflexivity|]).
  by apply elem_of_nil in Hin.
Defined.

(** X15.  Reading is stable under writing out: the flat map of any "conf"
    document, written out and read again, gives the same object. *)
Theorem conf_reread_is_stable (lib : Decoders) (content : string)
    (c : ConfigParserObj) :
  newConfigParserFromBytes lib "conf" content = (Some c, None) →
  newConfigParserFromBytes lib "conf" (conf_document (raw c)) = (Some c, None).
Proof.
  intros Hnew. rewrite newConfigParserFromBytes_conf.
  rewrite conf_document_decodes.
  - rewrite newConfigParserFromBytes_conf in Hnew. by injection Hnew as <-.
  - intros key val Hkey.
    assert (∃ line, free_of (byte 10) line ∧ line_defines line key val)
      as (line & Hline & Hdef); [|by eapply line_defines_clean].
    rewrite newConfigParserFromBytes_conf in Hnew. injection Hnew as <-.
    cbn [raw] in Hkey.
    destruct (conf_lines_lookup_inv _ _ _ _ Hkey)
      as [[? _]|(pre & line & post & Hlines & Hdef & _)]; [done|].
    exists line. split; [|done].
    destruct (Split_spec content (byte 10)) as (_ & Hfree & _).
    rewrite Hlines in Hfree. apply Forall_app in Hfree as [_ Hfree].
    by apply Forall_cons in Hfree as [? _].
Qed.

Lemma conf_reread_is_stable_witness :
  let content := "# comment" +:+ String (byte 10) " key2 = value2 " in
  let c := {| data := ∅; raw := foldl conf_line ∅ (Split content (byte 10));
              fileType := "conf"; iniFile := None |} in
  newConfigParserFromBytes (fixed_decoders ∅ ∅ ∅) "conf" (conf_document (raw c))
  = (Some c, None).
Proof.
  intros content c.
  exact (conf_reread_is_stable (fixed_decoders ∅ ∅ ∅) content c eq_refl).
Defined.

(** ** White space around a line *)

(** Spaces in front are dropped one rune after the other. *)
Lemma dropSpaces_run p2 p3 (l x : string) :
  (∀ c1 c2, p2 c1 c2 = true → asciiSpace c1 = false) →
  (∀ c1 c2 c3, p3 c1 c2 c3 = true → asciiSpace c1 = false ∧ p2 c1 c2 = false) →
  space_run p2 p3 l →
  dropSpaces p2 p3 (l +:+ x) = dropSpaces p2 p3 x.
Proof.
  intros Hp2 Hp3.
  induction 1 as [|c s Hc _ IH|c1 c2 s Hc _ IH|c1 c2 c3 s Hc _ IH];
    rewrite ?app_cons, ?app_nil_l; [done|..]; cbn [dropSpaces].
  - by rewrite Hc.
  - by rewrite (Hp2 _ _ Hc), Hc.
  - destruct (Hp3 _ _ _ Hc) as [-> ->]. by rewrite Hc.
Qed.

Lemma space2_last (c1 c2 : ascii) :
  space2 c1 c2 = true → asciiSpace c2 = false.
Proof.
  unfold space2. intros [_ H]%andb_true_iff.
  apply bool_decide_eq_true in H. rewrite !elem_of_cons, elem_of_nil in H.
  by destruct H as [->|[->|[]]].
Qed.

Lemma space3_last (c1 c2 c3 : ascii) :
  space3 c1 c2 c3 = true → asciiSpace c3 = false ∧ space2 c2 c3 = false.
Proof.
  unfold space3. rewrite !orb_true_iff, !bool_decide_eq_true. intros H.
  split.
  - unfold asciiSpace. apply bool_decide_eq_false.
    rewrite !elem_of_cons, elem_of_nil.
    intros [->|[->|[->|[->|[->|[->|[]]]]]]]; vm_compute in H; lia.
  - unfold space2. apply andb_false_iff. left. apply bool_decide_eq_false.
    intros ->. vm_compute in H. lia.
Qed.

(** The first byte of a run of spaces is an ASCII space or the first byte
    of a longer encoding: it is the second or third byte of none. *)
Lemma space_run_head (c : ascii) (r : string) :
  whitespace (String c r) →
  (∀ a, space2 a c = false) ∧
  (∀ a b, space3 a c b = false ∧ space3 a b c = false).
Proof.
  intros Hrun.
  assert ((nat_of_ascii c < 128)%nat ∨ (194 ≤ nat_of_ascii c)%nat) as Hc.
  { inversion Hrun as [|? ? H1|? c2 ? H2|? c2 c3 ? H3]; subst.
    - left. unfold asciiSpace in H1. apply bool_decide_eq_true in H1.
      rewrite !elem_of_cons, elem_of_nil in H1.
      destruct H1 as [->|[->|[->|[->|[->|[->|[]]]]]]]; vm_compute; lia.
    - right. unfold space2 in H2. apply andb_true_iff in H2 as [H2 _].
      apply bool_decide_eq_true in H2. by subst.
    - right. unfold space3 in H3.
      rewrite !orb_true_iff, !bool_decide_eq_true in H3. lia. }
  split.
  - intros a. unfold space2. apply andb_false_iff. right.
    apply bool_decide_eq_false. rewrite !elem_of_cons, elem_of_nil.
    intros [->|[->|[]]]; vm_compute in Hc; lia.
  - intros a b. unfold space3.
    split; rewrite !orb_false_iff, !bool_decide_eq_false; lia.
Qed.

(** A string that does not begin with a space, and is not empty, does not
    begin with one when a run of spaces follows it. *)
Lemma trimLeftSpace_fixed_app_run (t r : string) :
  t ≠ "" → trimLeftSpace t = t → whitespace r →
  trimLeftSpace (t +:+ r) = t +:+ r.
Proof.
  intros Hne Ht Hr. unfold trimLeftSpace in *.
  destruct r as [|c r]; [by rewrite app_nil_r|].
  destruct (space_run_head c r Hr) as [H2 H3].
  revert Ht. rewrite !dropSpaces_fixed.
  destruct t as [|c1 [|c2 [|c3 t]]]; rewrite ?app_cons, ?app_nil_l; [done|..].
  - intros [? _]. split; [done|]. split; [apply H2|].
    destruct r; [done|apply H3].
  - intros (? & ? & _). split; [done|]. split; [done|apply H3].
  - done.
Qed.

(** White space around a string does not show once it is trimmed. *)
Lemma TrimSpace_surrounded (l s r : string) :
  whitespace l → whitespace r → TrimSpace (l +:+ s +:+ r) = TrimSpace s.
Proof.
  intros Hl Hr. unfold TrimSpace.
  assert (∀ x, trimLeftSpace (l +:+ x) = trimLeftSpace x) as ->.
  { intros x. apply dropSpaces_run; [apply space2_first|apply space3_first|done]. }
  assert (∀ x, trimRightSpace (x +:+ r) = trimRightSpace x) as Hright.
  { intros x. unfold trimRightSpace. rewrite rev_app_distr.
    rewrite dropSpaces_run; [done| | |].
    - intros c2 c1. apply space2_last.
    - intros c3 c2 c1. apply space3_last.
    - by apply (space_run_rev (λ c2 c1, space2 c1 c2)
                  (λ c3 c2 c1, space3 c1 c2 c3)). }
  destruct (dropSpaces_spec space2 space3 s) as (l' & Hs & Hl').
  fold (trimLeftSpace s) in Hs. set (t := trimLeftSpace s) in *.
  assert (trimLeftSpace (s +:+ r) = trimLeftSpace (t +:+ r)) as ->.
  { rewrite Hs at 1. rewrite app_assoc.
    apply dropSpaces_run; [apply space2_first|apply space3_first|done]. }
  destruct (decide (t = "")) as [->|Hne].
  - rewrite app_nil_l.
    assert (trimLeftSpace r = "") as ->; [|done].
    rewrite <-(app_nil_r r). unfold trimLeftSpace.
    rewrite dropSpaces_run; [done|apply space2_first|apply space3_first|done].
  - rewrite trimLeftSpace_fixed_app_run; [apply Hright|done| |done].
    apply dropSpaces_idemp.
Qed.

(** X16.  White space around a line of a "conf" document does not count:
    indentation, trailing blanks and the carriage return of a line that
    ends in CR LF are trimmed before the line is looked at, so two
    documents whose lines differ in nothing else give the same object. *)
Theorem conf_ignores_space_around_lines (lib : Decoders)
    (content content' : string) :
  Forall2 (λ line line', ∃ l r, whitespace l ∧ whitespace r ∧
                                line' = l +:+ line +:+ r)
          (Split content (byte 10)) (Split content' (byte 10)) →
  newConfigParserFromBytes lib "conf" content'
  = newConfigParserFromBytes lib "conf" content.
Proof.
  intros Hlines. rewrite !newConfigParserFromBytes_conf. do 3 f_equal.
  generalize (∅ : gmap string string).
  induction Hlines as [|line line' lines lines' (l & r & Hl & Hr & ->) _ IH];
    intros raw; [done|].
  cbn [foldl]. rewrite IH. f_equal.
  unfold conf_line. by rewrite TrimSpace_surrounded.
Qed.

Lemma conf_ignores_space_around_lines_witness :
  let cr := String (byte 13) "" in
  let nl := String (byte 10) "" in
  newConfigParserFromBytes (fixed_decoders ∅ ∅ ∅) "conf"
    ("  key1=value1" +:+ cr +:+ nl +:+ "key2 = value2" +:+ cr)
  = newConfigParserFromBytes (fixed_decoders ∅ ∅ ∅) "conf"
      ("key1=value1" +:+ nl +:+ "key2 = value2").
Proof.
  intros cr nl.
  apply (conf_ignores_space_around_lines (fixed_decoders ∅ ∅ ∅)).
  repeat constructor.
  - exists "  ", cr. split; [|split; [|reflexivity]].
    + repeat (apply space_run_ascii; [reflexivity|]). constructor.
    + apply space_run_ascii; [reflexivity|constructor].
  - exists "", cr. split; [constructor|]. split; [|reflexivity].
    apply space_run_ascii; [reflexivity|constructor].
Defined.
